(** * The Island of the programs database (programs-database/island.ts)

    A shallow embedding of the class [Island]: registration of programs into
    clusters keyed by signature, the temperature schedule, prompt sampling
    and prompt assembly.

    JavaScript objects live in an explicit heap and are referred to by
    location, because the behaviour of the class depends on object identity:
    a [Map] compares array keys by reference, and [generatePrompt] mutates
    the objects it is handed.  Numbers that hold scores are modelled as exact
    rationals; the counter [numPrograms], the period and [functionsPerPrompt]
    hold integers.  NaN is modelled where the class can produce it. *)

From Stdlib Require Import QArith Qround ZArith Lia Lqa Sorted.
From stdpp Require Import base list strings pretty sorting.

Close Scope Q_scope.
Close Scope Z_scope.
Open Scope nat_scope.

(** ** Values and objects *)

(** A reference to a heap object. *)
Abbreviation loc := nat (only parsing).

(** A JavaScript [number] that may be NaN; [None] is NaN. *)
Definition number := option Q.

(** Exceptions: [TypeError] is raised by the runtime (here: writing a
    property of [undefined]); [Error] is what a [throw new Error(msg)]
    statement of the program raises. *)
Inductive exn :=
  | TypeError (what : string)
  | Error (message : string).

Inductive completion (A : Type) :=
  | Normal (a : A)
  | Throw (e : exn).
Arguments Normal {A} a.
Arguments Throw {A} e.

(** The function representation (code-manipulation/function.ts is outside
    the sources; these are the three mutable fields the class writes). *)
Record Function := mkFunction {
  name : string;
  docString : string;
  body : string
}.

(** The program representation: context code and the replaceable list of
    contained functions, held by reference (an array slot holds a reference
    or [undefined]). *)
Record Program := mkProgram {
  preface : string;
  functions : list (option loc)
}.

(** [ScoresPerTest]: an object from test identifier to score;
    [Object.values] lists the values in property order. *)
Definition ScoresPerTest := list (string * Q).

Definition Object_values (scoresPerTest : ScoresPerTest) : list Q :=
  map snd scoresPerTest.

(** [Signature = number[]]: an array object, so a value of this type is a
    reference to the array. *)
Abbreviation Signature := loc (only parsing).

Record Heap := mkHeap {
  functionObjs : list Function;
  programObjs : list Program;
  arrayObjs : list (list Q)
}.

(** Modelled from the spec: the Cluster class (cluster.ts is not among the
    sources).  A cluster owns one score, fixed at creation, and the ordered
    collection of the programs registered in it; [new Cluster(score, program)]
    has [program] as sole member and [registerProgram] appends. *)
Record Cluster := mkCluster {
  score : Q;
  members : list loc
}.

Definition Cluster_new (s : Q) (program : loc) : Cluster :=
  {| score := s; members := [program] |}.

Definition Cluster_registerProgram (c : Cluster) (program : loc) : Cluster :=
  {| score := score c; members := members c ++ [program] |}.

(** ** [Map<Signature, Cluster>]

    A JavaScript [Map] keeps its entries in insertion order and compares
    object keys by identity. *)
Definition JsMap := list (Signature * Cluster).

Fixpoint Map_get (m : JsMap) (k : Signature) : option Cluster :=
  match m with
  | [] => None
  | (k', c) :: m' => if Nat.eqb k' k then Some c else Map_get m' k
  end.

Definition Map_has (m : JsMap) (k : Signature) : bool :=
  match Map_get m k with Some _ => true | None => false end.

Fixpoint Map_set (m : JsMap) (k : Signature) (c : Cluster) : JsMap :=
  match m with
  | [] => [(k, c)]
  | (k', c') :: m' =>
      if Nat.eqb k' k then (k', c) :: m' else (k', c') :: Map_set m' k c
  end.

Definition Map_keys (m : JsMap) : list Signature := map fst m.

(** ** The Island *)

Record Island := mkIsland {
  template : loc;
  nameOffunctionToEvolve : string;
  functionsPerPrompt : Z;
  clusterSamplingTemperatureInit : Q;
  clusterSamplingTemperaturePeriod : Z;
  clusters : JsMap;
  numPrograms : Z
}.

(** The constructor only stores its arguments; it has no statement that can
    throw. *)
Definition Island_constructor (tpl : loc) (nm : string) (fpp : Z) (t0 : Q)
    (period : Z) (cl : JsMap) (n : Z) : completion Island :=
  Normal (mkIsland tpl nm fpp t0 period cl n).

(** [new Island(template, name, functionsPerPrompt, T0, P)] with the default
    arguments [clusters = new Map()] and [numPrograms = 0]. *)
Definition Island_fresh (tpl : loc) (nm : string) (fpp : Z) (t0 : Q)
    (period : Z) : Island :=
  mkIsland tpl nm fpp t0 period [] 0%Z.

Definition set_clusters (isl : Island) (cl : JsMap) : Island :=
  mkIsland (template isl) (nameOffunctionToEvolve isl) (functionsPerPrompt isl)
    (clusterSamplingTemperatureInit isl) (clusterSamplingTemperaturePeriod isl)
    cl (numPrograms isl).

Definition incr_numPrograms (isl : Island) : Island :=
  mkIsland (template isl) (nameOffunctionToEvolve isl) (functionsPerPrompt isl)
    (clusterSamplingTemperatureInit isl) (clusterSamplingTemperaturePeriod isl)
    (clusters isl) (numPrograms isl + 1)%Z.

Definition getVersionedName (nm : string) (version : Z) : string :=
  nm +:+ "_v" +:+ pretty version.

(** [testValues.map(...)] allocates a new array on every call. *)
Definition alloc_array (a : list Q) (h : Heap) : Signature * Heap :=
  (length (arrayObjs h),
   mkHeap (functionObjs h) (programObjs h) (arrayObjs h ++ [a])).

Definition getSignature (scoresPerTest : ScoresPerTest) (h : Heap)
    : Signature * Heap :=
  alloc_array (map (fun value => value) (Object_values scoresPerTest)) h.

(** The JavaScript remainder [a % b] on integers: NaN for [b = 0], otherwise
    the remainder of the truncated division (sign of the dividend). *)
Definition js_rem (a b : Z) : option Z :=
  if Z.eqb b 0 then None else Some (Z.rem a b).

Definition temperature (isl : Island) : number :=
  let period := clusterSamplingTemperaturePeriod isl in
  match js_rem (numPrograms isl) period with
  | None => None
  | Some r =>
      Some (clusterSamplingTemperatureInit isl
            * (1 - inject_Z r / inject_Z period))%Q
  end.

(** A getter is a call; reading [temperature] completes normally with the
    number computed above. *)
Definition read_temperature (isl : Island) : completion number :=
  Normal (temperature isl).

Definition signatures (isl : Island) : list Signature :=
  Map_keys (clusters isl).

(** [this.clusters.get(signature)?.score || 0] *)
Definition scores (isl : Island) : list Q :=
  map (fun signature =>
         match Map_get (clusters isl) signature with
         | Some c => if Qeq_bool (score c) 0 then 0%Q else score c
         | None => 0%Q
         end)
      (signatures isl).

(** Comparison of numbers; a comparison with NaN is false. *)
Definition is_num (a : number) (q : Q) : Prop :=
  match a with
  | Some x => (x == q)%Q
  | None => False
  end.

Definition number_lt (a b : number) : Prop :=
  match a, b with
  | Some x, Some y => (x < y)%Q
  | _, _ => False
  end.

(** [scores[a]] *)
Definition at_index (scs : list Q) (a : nat) : Q := nth a scs 0%Q.

(** Position in the stable ascending arrangement of the indices of [scs]:
    a smaller score goes first, and among equal scores the earlier index. *)
Definition before (scs : list Q) (i j : nat) : Prop :=
  (at_index scs i < at_index scs j)%Q \/
  ((at_index scs i == at_index scs j)%Q /\ i < j).

(** The island after its counter has reached [n]. *)
Definition with_numPrograms (isl : Island) (n : Z) : Island :=
  mkIsland (template isl) (nameOffunctionToEvolve isl) (functionsPerPrompt isl)
    (clusterSamplingTemperatureInit isl) (clusterSamplingTemperaturePeriod isl)
    (clusters isl) n.

(** ** Rounded arithmetic

    A [number] is a binary64 value, and every arithmetic operation returns
    the rounding of the exact result.  [rnd] stands for that rounding: it
    never reverses an order and it leaves 0 and 1 as they are.  A number
    [q] is a value of the format when [rnd q == q]. *)
Definition rounding (rnd : Q -> Q) : Prop :=
  (forall x y : Q, (x <= y)%Q -> (rnd x <= rnd y)%Q) /\
  (rnd 0 == 0)%Q /\
  (rnd 1 == 1)%Q.

(** The getter [temperature] with each operation rounded: the remainder of
    two integers is exact, then the quotient, the difference and the
    product are rounded in turn. *)
Definition temperature_rounded (rnd : Q -> Q) (isl : Island) : number :=
  let period := clusterSamplingTemperaturePeriod isl in
  match js_rem (numPrograms isl) period with
  | None => None
  | Some r =>
      Some (rnd (clusterSamplingTemperatureInit isl
                 * rnd (1 - rnd (inject_Z r / inject_Z period))))%Q
  end.

Definition number_le (a b : number) : Prop :=
  match a, b with
  | Some x, Some y => (x <= y)%Q
  | _, _ => False
  end.

(** A coarse rounding for the examples: down to a multiple of 1/8. *)
Definition truncate_to_eighths (q : Q) : Q :=
  (inject_Z (Qfloor (q * 8)) / 8)%Q.

(** ** Scores that are not numbers

    The [score] of a cluster is what [reduceScore] returned at registration,
    and that can be NaN.  [scores_read read] is the getter [scores] when
    the field of a cluster [c] reads as [read c]; [value || 0] replaces NaN,
    like 0 itself, by 0. *)
Definition or_zero (value : number) : Q :=
  match value with
  | Some q => if Qeq_bool q 0 then 0%Q else q
  | None => 0%Q
  end.

Definition scores_read (read : Cluster -> number) (isl : Island) : list Q :=
  map (fun signature =>
         match Map_get (clusters isl) signature with
         | Some c => or_zero (read c)
         | None => 0%Q
         end)
      (signatures isl).

(** ** Concrete collaborators and a concrete island for the examples *)

(** A reading of the score field under which a score above 1/2 is NaN. *)
Definition nan_above_half (c : Cluster) : number :=
  if Qle_bool (score c) (1 # 2) then Some (score c) else None.

(** The arithmetic mean of the values (0 for no value). *)
Definition mean_score (scoresPerTest : ScoresPerTest) : Q :=
  match scoresPerTest with
  | [] => 0%Q
  | _ => (foldr Qplus 0 (Object_values scoresPerTest)
          / inject_Z (Z.of_nat (length scoresPerTest)))%Q
  end.

Definition plain_softmax (scs : list Q) (t : number) : list Q := scs.

Definition first_index (ps : list Q) (r : unit) : nat * unit := (0, r).

Definition first_member (c : Cluster) (r : unit) : nat * unit :=
  (hd 0 (members c), r).



Definition same_function (f : Function) (old new : string) : Function := f.

Definition names_only (pre : string) (fs : list Function) : string :=
  foldr (fun f acc => name f +:+ ";" +:+ acc) "" fs.

Definition demo_heap : Heap :=
  mkHeap [mkFunction "priority" "Scores an item." "return 0";
          mkFunction "priority" "Scores an item." "return 1"]
         [mkProgram "import math" []]
         [[(1 # 5)%Q]; [(9 # 10)%Q]].

(** Two programs registered with the signatures [[0.2]] and [[0.9]]. *)
Definition demo_island : Island :=
  mkIsland 0 "priority" 2 1%Q 10%Z
    [(0, mkCluster (1 # 5)%Q [0]); (1, mkCluster (9 # 10)%Q [1])] 2%Z.

(** A new island, before any registration. *)
Definition new_island : Island := Island_fresh 0 "priority" 2 1%Q 10%Z.

(** An island whose initial temperature is 0, with period 2. *)
Definition cold_island : Island := mkIsland 0 "priority" 2 0%Q 2%Z [] 0%Z.

(** The demo island with a negative period. *)
Definition reversed_island : Island :=
  mkIsland 0 "priority" 2 1%Q (-10)%Z
    [(0, mkCluster (1 # 5)%Q [0]); (1, mkCluster (9 # 10)%Q [1])] 2%Z.

(** The demo island asked for prompts without functions. *)
Definition idle_island : Island :=
  mkIsland 0 "priority" 0 1%Q 10%Z
    [(0, mkCluster (1 # 5)%Q [0]); (1, mkCluster (9 # 10)%Q [1])] 2%Z.

(** Two registrations with the same score mapping. *)
Definition demo_registrations : list (nat * ScoresPerTest) :=
  [(0, [("t1", (1 # 5)%Q)]); (1, [("t1", (1 # 5)%Q)])].

Section WithMath.

(** math.ts is not among the sources: its functions are parameters. *)
Variable reduceScore : ScoresPerTest -> Q.
Variable softmax : list Q -> number -> list Q.

Definition probabilities (isl : Island) : list Q :=
  softmax (scores isl) (temperature isl).

Definition registerProgram (isl : Island) (program : loc)
    (scoresPerTest : ScoresPerTest) (h : Heap) : Island * Heap :=
  let '(signature, h1) := getSignature scoresPerTest h in
  let isl1 :=
    if negb (Map_has (clusters isl) signature) then
      let sc := reduceScore scoresPerTest in
      set_clusters isl (Map_set (clusters isl) signature (Cluster_new sc program))
    else
      match Map_get (clusters isl) signature with
      | Some c =>
          set_clusters isl
            (Map_set (clusters isl) signature (Cluster_registerProgram c program))
      | None => isl
      end in
  (incr_numPrograms isl1, h1).

(** A sequence of registrations, in order. *)
Fixpoint registerAll (isl : Island) (regs : list (loc * ScoresPerTest))
    (h : Heap) : Island * Heap :=
  match regs with
  | [] => (isl, h)
  | (program, scoresPerTest) :: regs' =>
      let '(isl1, h1) := registerProgram isl program scoresPerTest h in
      registerAll isl1 regs' h1
  end.

(** The number of programs held in the clusters. *)
Definition memberCount (m : JsMap) : nat :=
  foldr (fun e acc => length (members (snd e)) + acc) 0 m.

(** ** Heap access *)

(** Computations that read and write the heap and may throw. *)
Definition M (A : Type) : Type := Heap -> completion A * Heap.

Definition ret {A : Type} (a : A) : M A := fun h => (Normal a, h).

Definition bind {A B : Type} (m : M A) (f : A -> M B) : M B :=
  fun h =>
    match m h with
    | (Normal a, h1) => f a h1
    | (Throw e, h1) => (Throw e, h1)
    end.

Notation "'let!' x ':=' c1 'in' c2" := (bind c1 (fun x => c2))
  (at level 10, x name, c1 at level 200, c2 at level 200).
Notation "'exec' c1 'in' c2" := (bind c1 (fun _ => c2))
  (at level 10, c1 at level 200, c2 at level 200).

Definition set_functionObjs (h : Heap) (fs : list Function) : Heap :=
  mkHeap fs (programObjs h) (arrayObjs h).

Definition set_programObjs (h : Heap) (ps : list Program) : Heap :=
  mkHeap (functionObjs h) ps (arrayObjs h).

(** A value of type [Function] at run time: a reference, or [undefined]
    ([None]).  A location beyond the heap denotes no object and is treated
    like [undefined]. *)
Definition deref (v : option loc) (h : Heap) : option (loc * Function) :=
  match v with
  | Some l =>
      match functionObjs h !! l with
      | Some f => Some (l, f)
      | None => None
      end
  | None => None
  end.

(** [v.prop = ...]: writes the field in place; on [undefined] the runtime
    throws a TypeError. *)
Definition write_field (prop : string) (upd : Function -> Function)
    (v : option loc) : M unit :=
  fun h =>
    match deref v h with
    | Some (l, f) => (Normal tt, set_functionObjs h (<[l := upd f]> (functionObjs h)))
    | None =>
        (Throw (TypeError ("Cannot set properties of undefined (setting '"
                           +:+ prop +:+ "')")), h)
    end.

Definition set_name (v : option loc) (s : string) : M unit :=
  write_field "name" (fun f => mkFunction s (docString f) (body f)) v.

Definition set_docString (v : option loc) (s : string) : M unit :=
  write_field "docString" (fun f => mkFunction (name f) s (body f)) v.

Definition set_body (v : option loc) (s : string) : M unit :=
  write_field "body" (fun f => mkFunction (name f) (docString f) s) v.

Definition read_function (v : option loc) : M Function :=
  fun h =>
    match deref v h with
    | Some (_, f) => (Normal f, h)
    | None =>
        (Throw (TypeError "Cannot read properties of undefined (reading 'toString')"), h)
    end.

Definition alloc_function (f : Function) : M loc :=
  fun h => (Normal (length (functionObjs h)),
            set_functionObjs h (functionObjs h ++ [f])).

(** [newTemplate.functions = versionedFunctions] on the program object
    itself. *)
Definition set_functions (p : loc) (fs : list (option loc)) : M unit :=
  fun h =>
    match programObjs h !! p with
    | Some prog =>
        (Normal tt,
         set_programObjs h
           (<[p := mkProgram (preface prog) fs]> (programObjs h)))
    | None =>
        (Throw (TypeError "Cannot set properties of undefined (setting 'functions')"), h)
    end.

(** ** Prompt assembly *)

(** code-manipulation is not among the sources.  [renameFunctionCalls f old
    new] stands for [renameFunctionCalls(f.toString(), old, new)]: the
    utility applied to the rendering of the function object [f];
    [Program_render] is the text of a program given its context code and its
    functions. *)
Variable renameFunctionCalls : Function -> string -> string -> Function.
Variable Program_render : string -> list Function -> string.

Definition Program_toString (p : loc) : M string :=
  fun h =>
    match programObjs h !! p with
    | Some prog =>
        match mapM (fun v => snd <$> deref v h) (functions prog) with
        | Some fs => (Normal (Program_render (preface prog) fs), h)
        | None =>
            (Throw (TypeError "Cannot read properties of undefined (reading 'toString')"), h)
        end
    | None =>
        (Throw (TypeError "Cannot read properties of undefined (reading 'toString')"), h)
    end.

Definition improvedDocString (baseName : string) (version : Z) : string :=
  "Improved version of " +:+ getVersionedName baseName version +:+ ".".

(** The body of [implementations.forEach((impl, i) => ...)], from index [i]
    on; [versionedFunctions] is the array filled by [push]. *)
Fixpoint forEach_impl (baseName : string) (implementations : list (option loc))
    (i : nat) (versionedFunctions : list (option loc)) : M (list (option loc)) :=
  match implementations with
  | [] => ret versionedFunctions
  | impl :: rest =>
      exec set_name impl (getVersionedName baseName (Z.of_nat i)) in
      exec (if 0 <? i
            then set_docString impl (improvedDocString baseName (Z.of_nat i - 1))
            else ret tt) in
      let! f := read_function impl in
      let! impl' := alloc_function (renameFunctionCalls f baseName (name f)) in
      forEach_impl baseName rest (S i) (versionedFunctions ++ [Some impl'])
  end.

(** [implementations[implementations.length - 1]]: [undefined] on the empty
    array. *)
Definition last_element (implementations : list (option loc)) : option loc :=
  match last implementations with
  | Some v => v
  | None => None
  end.

Definition generatePrompt (isl : Island) (implementations : list (option loc))
    : M string :=
  let baseName := nameOffunctionToEvolve isl in
  let! versionedFunctions := forEach_impl baseName implementations 0 [] in
  let header := last_element implementations in
  let nextVersion := Z.of_nat (length implementations) in
  exec set_name header (getVersionedName baseName nextVersion) in
  exec set_body header "" in
  exec set_docString header (improvedDocString baseName (nextVersion - 1)) in
  let versionedFunctions := versionedFunctions ++ [header] in
  let newTemplate := template isl in
  exec set_functions newTemplate versionedFunctions in
  Program_toString newTemplate.

(** ** Sampling *)

(** The ambient random source ([Math.random]) is a state threaded through
    the draws.  [getRandomWeightedIndex] (math.ts) and [Cluster.sampleProgram]
    (cluster.ts) are not among the sources. *)
Variable Rng : Type.
Variable getRandomWeightedIndex : list Q -> Rng -> nat * Rng.
Variable sampleProgram : Cluster -> Rng -> loc * Rng.

(** [Array.from({ length: n }, () => getRandomWeightedIndex(probabilities))] *)
Fixpoint drawIndices (n : nat) (probs : list Q) (r : Rng) : list nat * Rng :=
  match n with
  | 0 => ([], r)
  | S n' =>
      let '(index, r1) := getRandomWeightedIndex probs r in
      let '(rest, r2) := drawIndices n' probs r1 in
      (index :: rest, r2)
  end.

(** The [for (const signature of chosenSignatures)] loop; an [undefined]
    signature has no cluster. *)
Fixpoint collect (cl : JsMap) (chosenSignatures : list (option Signature))
    (r : Rng) : list (option loc) * list Q * Rng :=
  match chosenSignatures with
  | [] => ([], [], r)
  | signature :: rest =>
      match signature ≫= Map_get cl with
      | Some cluster =>
          let '(program, r1) := sampleProgram cluster r in
          let '(implementations, scs, r2) := collect cl rest r1 in
          (Some program :: implementations, score cluster :: scs, r2)
      | None => collect cl rest r
      end
  end.

(** [Array.prototype.sort(compare)] is stable (ECMAScript 2019): an element
    goes before another when [compare] is negative, after it when positive,
    and equal elements keep their order.  Insertion from the right computes
    that arrangement. *)
Fixpoint sort_insert (compare : nat -> nat -> Q) (x : nat) (l : list nat)
    : list nat :=
  match l with
  | [] => [x]
  | y :: l' =>
      if Qle_bool (compare x y) 0 then x :: y :: l'
      else y :: sort_insert compare x l'
  end.

Definition Array_sort (compare : nat -> nat -> Q) (l : list nat) : list nat :=
  foldr (sort_insert compare) [] l.

Definition indicesSortedByScore (scs : list Q) : list nat :=
  Array_sort (fun a b => (at_index scs a - at_index scs b)%Q)
             (seq 0 (length scs)).

Definition sampleK (isl : Island) : Z :=
  Z.min (Z.of_nat (length (signatures isl))) (functionsPerPrompt isl).

(** The part of [getPrompt] before prompt assembly: the drawn
    implementations with their cluster scores, in draw order. *)
Definition drawImplementations (isl : Island) (r : Rng)
    : list (option loc) * list Q * Rng :=
  let sigs := signatures isl in
  let probs := probabilities isl in
  let '(indices, r1) := drawIndices (Z.to_nat (sampleK isl)) probs r in
  let chosenSignatures := map (fun index => sigs !! index) indices in
  collect (clusters isl) chosenSignatures r1.

Definition sortImplementations (implementations : list (option loc))
    (scs : list Q) : list (option loc) :=
  map (fun i => mjoin (implementations !! i)) (indicesSortedByScore scs).

Definition getPrompt (isl : Island) (r : Rng) (h : Heap)
    : completion (string * Z) * Heap * Rng :=
  let '(implementations, scs, r1) := drawImplementations isl r in
  let sortedImplementations := sortImplementations implementations scs in
  let versionGenerated := (Z.of_nat (length sortedImplementations) + 1)%Z in
  match generatePrompt isl sortedImplementations h with
  | (Normal text, h1) => (Normal (text, versionGenerated), h1, r1)
  | (Throw e, h1) => (Throw e, h1, r1)
  end.

(** ** Predicates used in the statements *)

(** Every key of the map is an array that exists in the heap. *)
Definition keys_allocated (m : JsMap) (h : Heap) : Prop :=
  Forall (fun e => fst e < length (arrayObjs h)) m.

(** The entry the [i]-th registration of a sequence adds, when the heap
    held [base] arrays before the sequence. *)
Definition newEntry (base : nat) (i : nat) (reg : loc * ScoresPerTest)
    : Signature * Cluster :=
  (base + i, Cluster_new (reduceScore (snd reg)) (fst reg)).

(** Modelled from the spec: the contract of the call-rename utility
    (parser.ts is not among the sources).  It rewrites call sites only and
    returns a structure of the same shape, so the name and the docstring of
    the function it is given are kept. *)
Definition keeps_shape : Prop :=
  forall (f : Function) (old new : string),
    name (renameFunctionCalls f old new) = name f /\
    docString (renameFunctionCalls f old new) = docString f.

(** What an iteration of the loop pushes at index [i]: the utility applied
    to an object that has just been given the name and docstring of
    version [i]. *)
Definition versioned (baseName : string) (i : nat) (g : Function) : Prop :=
  exists f : Function,
    g = renameFunctionCalls f baseName (name f) /\
    name f = getVersionedName baseName (Z.of_nat i) /\
    (0 < i -> docString f = improvedDocString baseName (Z.of_nat i - 1)).

(** The state in which [generatePrompt] leaves the header object. *)
Definition headerFunction (baseName : string) (n : nat) : Function :=
  mkFunction (getVersionedName baseName (Z.of_nat n))
             (improvedDocString baseName (Z.of_nat n - 1)) "".

(** The error of [header.name = ...] on an [undefined] header. *)
Definition undefined_name_error : exn :=
  TypeError "Cannot set properties of undefined (setting 'name')".

(** Modelled from the spec: [getRandomWeightedIndex] returns an index of the
    probability vector it is given (the last index is always reachable). *)
Definition draws_in_range : Prop :=
  forall (ps : list Q) (r : Rng),
    ps <> [] -> fst (getRandomWeightedIndex ps r) < length ps.

(** Modelled from the spec: [len(probabilities) == len(scores)]. *)
Definition softmax_keeps_length : Prop :=
  forall (scs : list Q) (t : number), length (softmax scs t) = length scs.

(** Modelled from the spec: [sampleProgram] returns one of the members. *)
Definition samples_member : Prop :=
  forall (c : Cluster) (r : Rng),
    members c <> [] -> In (fst (sampleProgram c r)) (members c).

(** The objects an island refers to exist: its template, and the members of
    its clusters, of which every cluster has at least one. *)
Definition island_wf (isl : Island) (h : Heap) : Prop :=
  template isl < length (programObjs h) /\
  Forall (fun e => members (snd e) <> [] /\
                   Forall (fun l => l < length (functionObjs h)) (members (snd e)))
         (clusters isl).

(** The state in which iteration [i] of the loop leaves the object [f] it
    visits: renamed, with the docstring replaced from the second iteration
    on, the body as it was. *)
Definition renamedInput (baseName : string) (i : nat) (f : Function) : Function :=
  mkFunction (getVersionedName baseName (Z.of_nat i))
             (if 0 <? i then improvedDocString baseName (Z.of_nat i - 1)
              else docString f)
             (body f).

(** The functions a list of array slots refers to, when all of them are
    objects of the heap. *)
Definition functionsOf (h : Heap) (slots : list (option loc))
    : option (list Function) :=
  mapM (fun v => snd <$> deref v h) slots.

(** * Properties *)

(** ** Registration *)

Lemma Map_get_above (m : JsMap) (k : Signature) :
  Forall (fun e => fst e < k) m -> Map_get m k = None.
Proof.
  induction 1 as [|[k' c] m Hk _ IH]; simpl; [done|].
  simpl in Hk. destruct (Nat.eqb_spec k' k); [lia|done].
Qed.

Lemma Map_set_absent (m : JsMap) (k : Signature) (c : Cluster) :
  Map_get m k = None -> Map_set m k c = m ++ [(k, c)].
Proof.
  induction m as [|[k' c'] m IH]; simpl; [done|].
  destruct (Nat.eqb k' k); [done|]. intros H. by rewrite IH.
Qed.

Lemma registerProgram_new_entry (isl : Island) (program : loc)
    (scoresPerTest : ScoresPerTest) (h : Heap) :
  keys_allocated (clusters isl) h ->
  registerProgram isl program scoresPerTest h =
    (incr_numPrograms
       (set_clusters isl
          (clusters isl ++
             [(length (arrayObjs h),
               Cluster_new (reduceScore scoresPerTest) program)])),
     mkHeap (functionObjs h) (programObjs h)
       (arrayObjs h ++ [Object_values scoresPerTest])).
Proof.
  intros Hk. unfold registerProgram, getSignature, alloc_array, Map_has.
  rewrite map_id, (Map_get_above _ _ Hk). simpl.
  by rewrite (Map_set_absent _ _ _ (Map_get_above _ _ Hk)).
Qed.

Lemma registerAll_entries (regs : list (loc * ScoresPerTest)) :
  forall (isl : Island) (h : Heap),
    keys_allocated (clusters isl) h ->
    clusters (fst (registerAll isl regs h)) =
      clusters isl ++ imap (newEntry (length (arrayObjs h))) regs /\
    numPrograms (fst (registerAll isl regs h)) =
      (numPrograms isl + Z.of_nat (length regs))%Z /\
    arrayObjs (snd (registerAll isl regs h)) =
      arrayObjs h ++ map (fun reg => Object_values (snd reg)) regs.
Proof.
  induction regs as [|[program scoresPerTest] regs IH]; intros isl h Hk.
  - simpl. rewrite !app_nil_r. split_and!; [done|lia|done].
  - cbn [registerAll]. rewrite (registerProgram_new_entry _ _ _ _ Hk).
    match goal with
    | |- context [registerAll ?i regs ?g] => destruct (IH i g) as (Hc & Hn & Ha)
    end.
    { unfold keys_allocated in *. simpl. rewrite length_app. simpl.
      apply Forall_app. split.
      - eapply Forall_impl; [exact Hk|]. simpl. intros; lia.
      - repeat constructor. simpl. lia. }
    rewrite Hc, Hn, Ha. simpl. rewrite length_app. simpl.
    rewrite <- !app_assoc. simpl. split_and!.
    + do 2 f_equal.
      * unfold newEntry. simpl. f_equal. lia.
      * apply imap_ext. intros i [p s] _. unfold newEntry. simpl.
        f_equal. lia.
    + lia.
    + done.
Qed.

Lemma memberCount_app (m1 m2 : JsMap) :
  memberCount (m1 ++ m2) = memberCount m1 + memberCount m2.
Proof.
  unfold memberCount. induction m1 as [|e m1 IH]; simpl; [done|].
  rewrite IH. lia.
Qed.

Lemma memberCount_imap_newEntry (base : nat) (regs : list (loc * ScoresPerTest)) :
  memberCount (imap (newEntry base) regs) = length regs.
Proof.
  revert base. induction regs as [|reg regs IH]; intros base; [done|].
  simpl. change (memberCount ?m) with (memberCount m).
  unfold memberCount in *. simpl. f_equal.
  rewrite (imap_ext _ (newEntry (S base))); [apply IH|].
  intros i x _. unfold newEntry. simpl. f_equal. lia.
Qed.

Lemma keys_allocated_fresh tpl nm fpp t0 period (h : Heap) :
  keys_allocated (clusters (Island_fresh tpl nm fpp t0 period)) h.
Proof. constructor. Qed.

Lemma register_twice_state tpl nm fpp t0 period (p1 p2 : loc)
    (s1 s2 : ScoresPerTest) (h : Heap) :
  let '(isl1, h1) := registerProgram (Island_fresh tpl nm fpp t0 period) p1 s1 h in
  let '(isl2, h2) := registerProgram isl1 p2 s2 h1 in
  clusters isl2 =
    [(length (arrayObjs h), Cluster_new (reduceScore s1) p1);
     (S (length (arrayObjs h)), Cluster_new (reduceScore s2) p2)] /\
  numPrograms isl2 = 2%Z /\
  arrayObjs h2 = arrayObjs h ++ [Object_values s1; Object_values s2].
Proof.
  rewrite registerProgram_new_entry by apply keys_allocated_fresh.
  rewrite registerProgram_new_entry.
  - simpl. rewrite length_app, <- app_assoc. simpl.
    replace (length (arrayObjs h) + 1) with (S (length (arrayObjs h))) by lia.
    done.
  - repeat constructor. simpl. rewrite length_app. simpl. lia.
Qed.

Lemma registerAll_keys_allocated (regs : list (loc * ScoresPerTest))
    (isl : Island) (h : Heap) :
  keys_allocated (clusters isl) h ->
  keys_allocated (clusters (fst (registerAll isl regs h)))
                 (snd (registerAll isl regs h)).
Proof.
  intros Hk. destruct (registerAll_entries regs isl h Hk) as (Hc & _ & Ha).
  unfold keys_allocated in *. rewrite Hc, Ha, length_app, length_map.
  apply Forall_app. split.
  - eapply Forall_impl; [exact Hk|]. simpl. intros; lia.
  - apply Forall_forall. intros e He.
    apply list_elem_of_lookup in He as [i Hi].
    apply list_lookup_imap_Some in Hi as (x & Hx & ->).
    apply lookup_lt_Some in Hx. simpl. lia.
Qed.

(** C9: on a fresh island every call of [registerProgram] adds a new entry to
    the clusters map, because [getSignature] returns an array that did not
    exist before and the map compares keys by reference.  After [n]
    registrations the map has [n] entries under pairwise different keys, each
    cluster has exactly one member, and [numPrograms] is [n], whatever the
    score mappings are; and one more registration appends one more
    single-member entry under a key that no entry had. *)
Theorem registerProgram_always_adds_entry tpl nm fpp t0 period
    (regs : list (loc * ScoresPerTest)) (h : Heap)
    (program : loc) (scoresPerTest : ScoresPerTest) :
  let isl' := fst (registerAll (Island_fresh tpl nm fpp t0 period) regs h) in
  let h' := snd (registerAll (Island_fresh tpl nm fpp t0 period) regs h) in
  let signature := fst (getSignature scoresPerTest h') in
  length (clusters isl') = length regs /\
  NoDup (Map_keys (clusters isl')) /\
  Forall (fun e => length (members (snd e)) = 1) (clusters isl') /\
  numPrograms isl' = Z.of_nat (length regs) /\
  Map_has (clusters isl') signature = false /\
  clusters (fst (registerProgram isl' program scoresPerTest h')) =
    clusters isl' ++
      [(signature, Cluster_new (reduceScore scoresPerTest) program)].
Proof.
  pose proof (registerAll_keys_allocated regs _ h
                (keys_allocated_fresh tpl nm fpp t0 period h)) as Hk.
  destruct (registerAll_entries regs (Island_fresh tpl nm fpp t0 period) h
              (keys_allocated_fresh _ _ _ _ _ h)) as (Hc & Hn & _).
  cbv zeta. split_and!.
  - rewrite Hc. simpl. by rewrite length_imap.
  - rewrite Hc. simpl. unfold Map_keys.
    change (map fst ?l) with (fst <$> l). rewrite fmap_imap.
    apply NoDup_alt. intros i j k Hi Hj.
    apply list_lookup_imap_Some in Hi as (x & _ & ->).
    apply list_lookup_imap_Some in Hj as (y & _ & Hy).
    unfold newEntry in Hy. simpl in Hy. lia.
  - rewrite Hc. simpl. apply Forall_forall. intros e He.
    apply list_elem_of_lookup in He as [i Hi].
    apply list_lookup_imap_Some in Hi as (x & _ & ->). done.
  - rewrite Hn. simpl. lia.
  - unfold Map_has. simpl. by rewrite (Map_get_above _ _ Hk).
  - by rewrite (registerProgram_new_entry _ _ _ _ Hk).
Qed.

(** C1 (what the code does): registering the same [scoresPerTest] twice on a
    fresh island leaves two clusters of one member each, not one cluster of
    two members; [numPrograms] is 2. *)
Theorem register_same_scores_twice tpl nm fpp t0 period (p1 p2 : loc)
    (scoresPerTest : ScoresPerTest) (h : Heap) :
  let '(isl1, h1) :=
    registerProgram (Island_fresh tpl nm fpp t0 period) p1 scoresPerTest h in
  let '(isl2, h2) := registerProgram isl1 p2 scoresPerTest h1 in
  length (clusters isl2) = 2 /\
  map (fun e => members (snd e)) (clusters isl2) = [[p1]; [p2]] /\
  numPrograms isl2 = 2%Z.
Proof.
  pose proof (register_twice_state tpl nm fpp t0 period p1 p2
                scoresPerTest scoresPerTest h) as H.
  destruct (registerProgram _ p1 _ h) as [isl1 h1].
  destruct (registerProgram isl1 p2 _ h1) as [isl2 h2].
  destruct H as (-> & -> & _). done.
Qed.

(** C2 (what the code does): after registering the same [scoresPerTest]
    twice on a fresh island, [numPrograms] is the number of members held in
    the clusters, but the map holds two entries, under different keys, whose
    signature arrays have the same contents. *)
Theorem register_duplicates_signature_value tpl nm fpp t0 period (p1 p2 : loc)
    (scoresPerTest : ScoresPerTest) (h : Heap) :
  let '(isl1, h1) :=
    registerProgram (Island_fresh tpl nm fpp t0 period) p1 scoresPerTest h in
  let '(isl2, h2) := registerProgram isl1 p2 scoresPerTest h1 in
  numPrograms isl2 = Z.of_nat (memberCount (clusters isl2)) /\
  exists k1 k2 : Signature,
    Map_keys (clusters isl2) = [k1; k2] /\ k1 <> k2 /\
    arrayObjs h2 !! k1 = Some (Object_values scoresPerTest) /\
    arrayObjs h2 !! k2 = Some (Object_values scoresPerTest).
Proof.
  pose proof (register_twice_state tpl nm fpp t0 period p1 p2
                scoresPerTest scoresPerTest h) as H.
  destruct (registerProgram _ p1 _ h) as [isl1 h1].
  destruct (registerProgram isl1 p2 _ h1) as [isl2 h2].
  destruct H as (-> & -> & ->). split; [done|].
  exists (length (arrayObjs h)), (S (length (arrayObjs h))). split_and!.
  - done.
  - lia.
  - rewrite lookup_app_r by lia. by rewrite Nat.sub_diag.
  - rewrite lookup_app_r by lia.
    by replace (S (length (arrayObjs h)) - length (arrayObjs h)) with 1 by lia.
Qed.

(** On a fresh island [numPrograms] is the number of members held in the
    clusters after any sequence of registrations. *)
Lemma numPrograms_memberCount tpl nm fpp t0 period
    (regs : list (loc * ScoresPerTest)) (h : Heap) :
  let isl' := fst (registerAll (Island_fresh tpl nm fpp t0 period) regs h) in
  numPrograms isl' = Z.of_nat (memberCount (clusters isl')).
Proof.
  destruct (registerAll_entries regs (Island_fresh tpl nm fpp t0 period) h
              (keys_allocated_fresh _ _ _ _ _ h)) as (Hc & Hn & _).
  simpl in *. by rewrite Hc, Hn, memberCount_imap_newEntry.
Qed.

(** ** Temperature *)

Lemma temperature_value (isl : Island) :
  clusterSamplingTemperaturePeriod isl <> 0%Z ->
  temperature isl =
    Some (clusterSamplingTemperatureInit isl
          * (1 - inject_Z (Z.rem (numPrograms isl)
                             (clusterSamplingTemperaturePeriod isl))
                 / inject_Z (clusterSamplingTemperaturePeriod isl)))%Q.
Proof.
  intros HP. unfold temperature, js_rem.
  destruct (Z.eqb_spec (clusterSamplingTemperaturePeriod isl) 0); [done|done].
Qed.

Lemma rounding_proper (rnd : Q -> Q) (x y : Q) :
  rounding rnd -> (x == y)%Q -> (rnd x == rnd y)%Q.
Proof.
  intros (Hmono & _) Hxy. apply Qle_antisym; apply Hmono; rewrite Hxy;
    apply Qle_refl.
Qed.

Lemma temperature_rounded_value (rnd : Q -> Q) (isl : Island) :
  clusterSamplingTemperaturePeriod isl <> 0%Z ->
  temperature_rounded rnd isl =
    Some (rnd (clusterSamplingTemperatureInit isl
               * rnd (1 - rnd (inject_Z (Z.rem (numPrograms isl)
                                           (clusterSamplingTemperaturePeriod isl))
                               / inject_Z (clusterSamplingTemperaturePeriod isl)))))%Q.
Proof.
  intros HP. unfold temperature_rounded, js_rem.
  destruct (Z.eqb_spec (clusterSamplingTemperaturePeriod isl) 0); [done|done].
Qed.

(** Without rounding the rounded getter is the exact one. *)
Lemma temperature_rounded_exact (isl : Island) :
  temperature_rounded (fun q => q) isl = temperature isl.
Proof. reflexivity. Qed.

(** The rounded value of the schedule at remainder [r], as a function that
    never increases in [r] when [T0 >= 0]. *)
Lemma rounded_schedule_antitone (rnd : Q -> Q) (T0 : Q) (p a b : Z) :
  rounding rnd -> (0 <= T0)%Q -> (0 < p)%Z -> (a <= b)%Z ->
  (rnd (T0 * rnd (1 - rnd (inject_Z b / inject_Z p)))
   <= rnd (T0 * rnd (1 - rnd (inject_Z a / inject_Z p))))%Q.
Proof.
  intros (Hmono & _) HT Hp Hab.
  assert (Hq : (rnd (inject_Z a / inject_Z p) <= rnd (inject_Z b / inject_Z p))%Q).
  { apply Hmono. unfold Qdiv. apply Qmult_le_compat_r.
    - by rewrite <- Zle_Qle.
    - apply Qlt_le_weak, Qinv_lt_0_compat. change 0%Q with (inject_Z 0).
      by rewrite <- Zlt_Qlt. }
  assert (Hy : (rnd (1 - rnd (inject_Z b / inject_Z p))
                <= rnd (1 - rnd (inject_Z a / inject_Z p)))%Q).
  { apply Hmono. lra. }
  apply Hmono. nra.
Qed.

Lemma rounded_schedule_at_zero (rnd : Q -> Q) (T0 : Q) (p : Z) :
  rounding rnd -> (rnd T0 == T0)%Q ->
  (rnd (T0 * rnd (1 - rnd (inject_Z 0 / inject_Z p))) == T0)%Q.
Proof.
  intros Hr HT. pose proof Hr as (_ & H0 & H1).
  assert (E1 : (rnd (inject_Z 0 / inject_Z p) == 0)%Q).
  { transitivity (rnd 0%Q); [|exact H0]. apply rounding_proper; [done|].
    unfold Qdiv. change (inject_Z 0) with 0%Q. ring. }
  assert (E2 : (rnd (1 - rnd (inject_Z 0 / inject_Z p)) == 1)%Q).
  { transitivity (rnd 1%Q); [|exact H1]. apply rounding_proper; [done|].
    rewrite E1. ring. }
  transitivity (rnd T0); [|exact HT]. apply rounding_proper; [done|].
  rewrite E2. ring.
Qed.

(** C4 (amended): the getter evaluates [T0 * (1 - (numPrograms mod P) / P)]
    with each operation rounded.  For an island with period [P > 0], a
    count [numPrograms >= 0] and [T0] a value of the number format, under
    every rounding that keeps orders and leaves 0 and 1 unchanged: the
    temperature is that rounded expression; it is [T0] at [numPrograms = 0]
    and again at [numPrograms = P]; and when [T0 >= 0] it never increases as
    [numPrograms] ranges over [0, P). *)
Theorem temperature_sawtooth (rnd : Q -> Q) (isl : Island) :
  rounding rnd ->
  (rnd (clusterSamplingTemperatureInit isl)
   == clusterSamplingTemperatureInit isl)%Q ->
  (0 < clusterSamplingTemperaturePeriod isl)%Z ->
  let T0 := clusterSamplingTemperatureInit isl in
  let P := clusterSamplingTemperaturePeriod isl in
  (forall n : Z, (0 <= n)%Z ->
     is_num (temperature_rounded rnd (with_numPrograms isl n))
            (rnd (T0 * rnd (1 - rnd (inject_Z (n mod P) / inject_Z P))))%Q) /\
  is_num (temperature_rounded rnd (with_numPrograms isl 0)) T0 /\
  is_num (temperature_rounded rnd (with_numPrograms isl P)) T0 /\
  ((0 <= T0)%Q ->
   forall n m : Z, (0 <= n < m)%Z -> (m < P)%Z ->
     number_le (temperature_rounded rnd (with_numPrograms isl m))
               (temperature_rounded rnd (with_numPrograms isl n))).
Proof.
  intros Hr HT0 HP T0 P.
  assert (Hv : forall n, temperature_rounded rnd (with_numPrograms isl n) =
                 Some (rnd (T0 * rnd (1 - rnd (inject_Z (Z.rem n P)
                                               / inject_Z P))))%Q).
  { intros n. rewrite temperature_rounded_value; [done|]. simpl. fold P. lia. }
  split_and!.
  - intros n Hn. rewrite Hv. simpl. rewrite Z.rem_mod_nonneg by lia. reflexivity.
  - rewrite Hv. simpl. rewrite Z.rem_0_l by lia.
    by apply rounded_schedule_at_zero.
  - rewrite Hv. simpl. rewrite Z.rem_same by lia.
    by apply rounded_schedule_at_zero.
  - intros HT n m Hnm Hm. rewrite !Hv. simpl.
    rewrite !Z.rem_small by lia.
    apply rounded_schedule_antitone; [done|done|done|lia].
Qed.

(** C8 (amended): the period is not validated.  The constructor completes
    normally for every period, and reading [temperature] completes normally
    too: with NaN when the period is 0, and otherwise, also for a negative
    period, with the number [T0 * (1 - (numPrograms % P) / P)]. *)
Theorem period_not_validated tpl nm fpp t0 (period : Z) cl (n : Z) :
  Island_constructor tpl nm fpp t0 period cl n =
    Normal (mkIsland tpl nm fpp t0 period cl n) /\
  read_temperature (mkIsland tpl nm fpp t0 period cl n) =
    Normal (if (period =? 0)%Z then None
            else Some (t0 * (1 - inject_Z (Z.rem n period) / inject_Z period))%Q).
Proof.
  split; [done|]. unfold read_temperature, temperature, js_rem. simpl.
  by destruct (period =? 0)%Z.
Qed.

(** ** Sorting of the drawn implementations *)

Lemma before_trans (scs : list Q) (i j k : nat) :
  before scs i j -> before scs j k -> before scs i k.
Proof.
  unfold before. intros [Hij|[Hij Hlt]] [Hjk|[Hjk Hlt']].
  - left. by apply Qlt_trans with (at_index scs j).
  - left. by rewrite <- Hjk.
  - left. by rewrite Hij.
  - right. split; [by rewrite Hij|lia].
Qed.

Lemma sort_insert_perm (compare : nat -> nat -> Q) (x : nat) (l : list nat) :
  sort_insert compare x l ≡ₚ x :: l.
Proof.
  induction l as [|y l IH]; simpl; [done|].
  destruct (Qle_bool (compare x y) 0); [done|].
  rewrite IH. apply Permutation_swap.
Qed.

Lemma Array_sort_perm (compare : nat -> nat -> Q) (l : list nat) :
  Array_sort compare l ≡ₚ l.
Proof.
  induction l as [|x l IH]; simpl; [done|].
  by rewrite sort_insert_perm, IH.
Qed.

Lemma sort_insert_sorted (scs : list Q) (x : nat) (l : list nat) :
  Forall (fun y => x < y) l ->
  StronglySorted (before scs) l ->
  StronglySorted (before scs)
    (sort_insert (fun a b => (at_index scs a - at_index scs b)%Q) x l).
Proof.
  intros Hx Hs. induction Hs as [|y l Hs IH Hy]; simpl.
  - repeat constructor.
  - apply Forall_cons in Hx as [Hxy Hx].
    destruct (Qle_bool (at_index scs x - at_index scs y) 0) eqn:Hc.
    + apply Qle_bool_iff in Hc.
      assert (Hb : before scs x y).
      { destruct (Qle_lt_or_eq (at_index scs x) (at_index scs y)) as [?|?];
          [|by left|by right].
        apply (Qplus_le_l _ _ (- at_index scs y)).
        by rewrite Qplus_opp_r. }
      constructor; [by constructor|].
      constructor; [done|].
      eapply Forall_impl; [exact Hy|]. intros z Hz. by eapply before_trans.
    + constructor; [by apply IH|].
      rewrite sort_insert_perm. constructor; [|done].
      left. apply Qnot_le_lt. intros Hle. apply not_true_iff_false in Hc.
      apply Hc, Qle_bool_iff.
      apply (Qplus_le_l _ _ (at_index scs y)). by ring_simplify.
Qed.

Lemma Array_sort_seq_sorted (scs : list Q) (n a : nat) :
  StronglySorted (before scs)
    (Array_sort (fun a b => (at_index scs a - at_index scs b)%Q) (seq a n)).
Proof.
  revert a. induction n as [|n IH]; intros a; simpl; [constructor|].
  apply sort_insert_sorted; [|apply IH].
  rewrite Array_sort_perm. apply Forall_forall. intros y Hy.
  apply elem_of_seq in Hy. lia.
Qed.

Lemma before_asym (scs : list Q) (i j : nat) :
  before scs i j -> before scs j i -> i = j.
Proof.
  unfold before. intros [Hij|[Hij Hlt]] [Hji|[Hji Hlt']].
  - destruct (Qlt_irrefl (at_index scs i)).
    by apply Qlt_trans with (at_index scs j).
  - rewrite Hji in Hij. by destruct (Qlt_irrefl _ Hij).
  - rewrite Hij in Hji. by destruct (Qlt_irrefl _ Hji).
  - lia.
Qed.

(** The model of the built-in sort is not a choice: every arrangement of the
    indices that is ascending by score and keeps equal scores in their order
    is the list computed by [indicesSortedByScore]. *)
Lemma stable_arrangement_unique (scs : list Q) (l : list nat) :
  l ≡ₚ seq 0 (length scs) ->
  StronglySorted (before scs) l ->
  l = indicesSortedByScore scs.
Proof.
  intros Hp Hs. apply (StronglySorted_unique_strong (before scs)).
  - intros i j _ _. apply before_asym.
  - done.
  - apply Array_sort_seq_sorted.
  - unfold indicesSortedByScore. by rewrite Array_sort_perm.
Qed.


Lemma collect_lengths (cl : JsMap) (chosen : list (option Signature)) (r : Rng) :
  length (fst (fst (collect cl chosen r))) = length (snd (fst (collect cl chosen r))).
Proof.
  revert r. induction chosen as [|sg chosen IH]; intros r; simpl; [done|].
  destruct (sg ≫= Map_get cl) as [c|]; [|apply IH].
  destruct (sampleProgram c r) as [program r1].
  specialize (IH r1). destruct (collect cl chosen r1) as [[impls scs] r2].
  simpl in *. by rewrite IH.
Qed.

(** ** Prompt assembly *)

Lemma write_field_at (prop : string) (upd : Function -> Function) (l : loc)
    (f : Function) (h : Heap) :
  functionObjs h !! l = Some f ->
  write_field prop upd (Some l) h =
    (Normal tt, set_functionObjs h (<[l := upd f]> (functionObjs h))).
Proof. intros Hl. unfold write_field, deref. by rewrite Hl. Qed.

Lemma read_function_at (l : loc) (f : Function) (h : Heap) :
  functionObjs h !! l = Some f -> read_function (Some l) h = (Normal f, h).
Proof. intros Hl. unfold read_function, deref. by rewrite Hl. Qed.

Lemma forEach_impl_post (baseName : string) (N0 : nat) (ls : list loc) :
  forall (i : nat) (acc : list (option loc)) (h : Heap),
    Forall (fun l => l < N0) ls ->
    N0 <= length (functionObjs h) ->
    exists fs' : list Function,
      forEach_impl baseName (map Some ls) i acc h =
        (Normal (acc ++ map Some (seq (length (functionObjs h)) (length ls))),
         set_functionObjs h fs') /\
      length fs' = length (functionObjs h) + length ls /\
      (forall l, N0 <= l < length (functionObjs h) ->
         fs' !! l = functionObjs h !! l) /\
      (forall k, k < length ls ->
         exists g, fs' !! (length (functionObjs h) + k) = Some g /\
                   versioned baseName (i + k) g).
Proof.
  induction ls as [|l ls IH]; intros i acc h Hls HN.
  - exists (functionObjs h). simpl. rewrite app_nil_r. split_and!.
    + by destruct h.
    + lia.
    + done.
    + intros k Hk. lia.
  - apply Forall_cons in Hls as [Hl Hls].
    destruct (lookup_lt_is_Some_2 (functionObjs h) l) as [f Hf]; [lia|].
    set (f2 := mkFunction (getVersionedName baseName (Z.of_nat i))
                 (if 0 <? i then improvedDocString baseName (Z.of_nat i - 1)
                  else docString f) (body f)).
    set (h3 := set_functionObjs h
                 (<[l := f2]> (functionObjs h) ++
                    [renameFunctionCalls f2 baseName (name f2)])).
    assert (Hstep : forEach_impl baseName (map Some (l :: ls)) i acc h =
              forEach_impl baseName (map Some ls) (S i)
                (acc ++ [Some (length (functionObjs h))]) h3).
    { cbn [map forEach_impl]. unfold bind at 1, set_name.
      rewrite (write_field_at _ _ _ _ _ Hf).
      unfold bind at 1. destruct (0 <? i) eqn:Hi.
      - unfold set_docString. erewrite write_field_at;
          [|simpl; apply list_lookup_insert_eq; by eapply lookup_lt_Some].
        cbn [functionObjs set_functionObjs name docString body].
        rewrite list_insert_insert_eq.
        unfold bind at 1. erewrite read_function_at;
          [|simpl; apply list_lookup_insert_eq; by eapply lookup_lt_Some].
        unfold bind at 1, alloc_function.
        cbn [functionObjs set_functionObjs programObjs arrayObjs].
        rewrite length_insert. subst h3 f2. try rewrite Hi. done.
      - unfold ret at 1.
        unfold bind at 1. erewrite read_function_at;
          [|simpl; apply list_lookup_insert_eq; by eapply lookup_lt_Some].
        unfold bind at 1, alloc_function.
        cbn [functionObjs set_functionObjs programObjs arrayObjs].
        rewrite length_insert. subst h3 f2. try rewrite Hi. done. }
    assert (Hlen3 : length (functionObjs h3) = S (length (functionObjs h))).
    { subst h3. simpl. rewrite length_app, length_insert. simpl. lia. }
    destruct (IH (S i) (acc ++ [Some (length (functionObjs h))]) h3 Hls)
      as (fs' & Hrun & Hlen & Hkeep & Hcopies); [lia|].
    exists fs'. rewrite Hstep, Hrun, Hlen3. split_and!.
    + f_equal. rewrite <- app_assoc. by simpl.
    + rewrite Hlen, Hlen3. simpl. lia.
    + intros l' Hl'. rewrite Hkeep by lia. subst h3. simpl.
      rewrite lookup_app_l by (rewrite length_insert; lia).
      apply list_lookup_insert_ne. lia.
    + intros k Hk. destruct k as [|k].
      * rewrite Nat.add_0_r, Hkeep by lia. subst h3. simpl.
        rewrite lookup_app_r by (rewrite length_insert; lia).
        rewrite length_insert, Nat.sub_diag. simpl.
        eexists. split; [done|]. exists f2. rewrite Nat.add_0_r.
        split_and!; [done|done|].
        intros Hi. subst f2. simpl. apply Nat.ltb_lt in Hi. by rewrite Hi.
      * destruct (Hcopies k) as (g & Hg & Hv); [simpl in Hk; lia|].
        exists g. rewrite Hlen3 in Hg.
        replace (length (functionObjs h) + S k)
          with (S (length (functionObjs h)) + k) by lia.
        replace (i + S k) with (S i + k) by lia. done.
Qed.

Lemma last_element_Some (ls : list loc) (l : loc) :
  last ls = Some l -> last_element (map Some ls) = Some l.
Proof.
  intros Hl. apply last_Some in Hl as [ls' ->].
  unfold last_element. rewrite map_app. simpl. by rewrite last_snoc.
Qed.

Lemma last_in_range (ls : list loc) (header : loc) (N : nat) :
  last ls = Some header -> Forall (fun l => l < N) ls -> header < N.
Proof.
  intros Hlast Hls. apply last_Some in Hlast as [ls' ->].
  apply Forall_app in Hls as [_ Hh]. by inversion Hh.
Qed.

Lemma generatePrompt_post (isl : Island) (ls : list loc) (header : loc)
    (h : Heap) :
  last ls = Some header ->
  Forall (fun l => l < length (functionObjs h)) ls ->
  template isl < length (programObjs h) ->
  let baseName := nameOffunctionToEvolve isl in
  let N0 := length (functionObjs h) in
  let n := length ls in
  let versionedFunctions := map Some (seq N0 n) ++ [Some header] in
  exists (text : string) (fs' : list Function) (prog0 : Program),
    programObjs h !! template isl = Some prog0 /\
    generatePrompt isl (map Some ls) h =
      (Normal text,
       mkHeap (<[header := headerFunction baseName n]> fs')
              (<[template isl := mkProgram (preface prog0) versionedFunctions]>
                 (programObjs h))
              (arrayObjs h)) /\
    length fs' = N0 + n /\
    (forall k, k < n ->
       exists g, fs' !! (N0 + k) = Some g /\ versioned baseName k g).
Proof.
  intros Hlast Hls Htpl baseName N0 n versionedFunctions.
  destruct (forEach_impl_post baseName N0 ls 0 [] h Hls)
    as (fs' & Hrun & Hlen & _ & Hcopies); [done|].
  destruct (lookup_lt_is_Some_2 (programObjs h) (template isl) Htpl)
    as [prog0 Hprog].
  pose proof (last_in_range _ _ _ Hlast Hls) as Hheader. fold N0 in Hheader.
  destruct (lookup_lt_is_Some_2 fs' header) as [f0 Hf0]; [fold N0 in Hlen; lia|].
  set (hF := mkHeap (<[header := headerFunction baseName n]> fs')
               (<[template isl := mkProgram (preface prog0) versionedFunctions]>
                  (programObjs h))
               (arrayObjs h)).
  assert (Hall : is_Some (mapM (fun v => snd <$> deref v hF) versionedFunctions)).
  { apply mapM_is_Some_2, Forall_forall. intros v Hv. simpl.
    assert (exists l, v = Some l /\ l < length fs') as (l & -> & Hl).
    { subst versionedFunctions. apply elem_of_app in Hv as [Hv|Hv].
      - apply list_elem_of_In, in_map_iff in Hv as (l & <- & Hl).
        apply in_seq in Hl. exists l. split; [done|]. fold N0 n in Hlen. lia.
      - apply list_elem_of_singleton in Hv as ->. exists header.
        split; [done|]. fold N0 in Hlen. lia. }
    unfold deref. simpl.
    destruct (lookup_lt_is_Some_2 (<[header := headerFunction baseName n]> fs') l)
      as [g Hg]; [by rewrite length_insert|].
    rewrite Hg. by eexists. }
  destruct Hall as [fns Hfns].
  exists (Program_render (preface prog0) fns), fs', prog0.
  split_and!; [done| |done|exact Hcopies].
  unfold generatePrompt. fold baseName. rewrite length_map.
  unfold bind at 1. rewrite Hrun.
  rewrite (last_element_Some _ _ Hlast).
  unfold bind at 1, set_name.
  rewrite (write_field_at _ _ _ f0) by done.
  unfold bind at 1, set_body.
  erewrite write_field_at; [|simpl; apply list_lookup_insert_eq; by eapply lookup_lt_Some].
  unfold bind at 1, set_docString.
  erewrite write_field_at; [|simpl; apply list_lookup_insert_eq;
                             rewrite length_insert; by eapply lookup_lt_Some].
  cbn [functionObjs set_functionObjs name docString body programObjs arrayObjs].
  rewrite !list_insert_insert_eq.
  unfold bind at 1, set_functions.
  cbn [functionObjs set_functionObjs programObjs arrayObjs].
  rewrite Hprog. unfold Program_toString, set_programObjs.
  cbn [functionObjs set_functionObjs programObjs arrayObjs].
  rewrite list_lookup_insert_eq by done.
  cbn [preface functions]. simpl app.
  fold N0 n. fold versionedFunctions. fold (headerFunction baseName n).
  fold hF. by rewrite Hfns.
Qed.

Lemma append_assoc (s1 s2 s3 : string) :
  (s1 +:+ s2) +:+ s3 = s1 +:+ s2 +:+ s3.
Proof.
  induction s1 as [|c s1 IH]; [done|].
  change (String c ((s1 +:+ s2) +:+ s3) = String c (s1 +:+ s2 +:+ s3)).
  by rewrite IH.
Qed.

(** The docstring of a later version, character by character. *)
Lemma improvedDocString_text (baseName : string) (version : Z) :
  improvedDocString baseName version =
    "Improved version of " +:+ baseName +:+ "_v" +:+ pretty version +:+ ".".
Proof.
  unfold improvedDocString, getVersionedName. by rewrite !append_assoc.
Qed.

(** C7: for a non-empty list of [n] implementations (objects of the heap),
    and a rename utility that honours its contract, [generatePrompt] returns
    normally and leaves in the template a list of [n + 1] functions: the
    function at index [i < n] is named [<baseName>_v<i>] (the base name, then
    [_v], then [i] in decimal) and, for [i > 0], its docstring is
    [Improved version of <baseName>_v<i-1>.]; the function at index [n], the
    header, is named [<baseName>_v<n>], has an empty body and the docstring
    [Improved version of <baseName>_v<n-1>.]. *)
Theorem generatePrompt_versioned_names (isl : Island) (ls : list loc) (h : Heap) :
  keeps_shape ->
  ls <> [] ->
  Forall (fun l => l < length (functionObjs h)) ls ->
  template isl < length (programObjs h) ->
  let baseName := nameOffunctionToEvolve isl in
  let n := length ls in
  exists (text : string) (h' : Heap) (prog : Program),
    generatePrompt isl (map Some ls) h = (Normal text, h') /\
    programObjs h' !! template isl = Some prog /\
    length (functions prog) = S n /\
    (forall i, i < n ->
       exists (l : loc) (f : Function),
         functions prog !! i = Some (Some l) /\
         functionObjs h' !! l = Some f /\
         name f = baseName +:+ "_v" +:+ pretty (Z.of_nat i) /\
         (0 < i ->
          docString f =
            "Improved version of " +:+ baseName +:+ "_v"
              +:+ pretty (Z.of_nat i - 1)%Z +:+ ".")) /\
    (exists (l : loc) (f : Function),
       functions prog !! n = Some (Some l) /\
       functionObjs h' !! l = Some f /\
       name f = baseName +:+ "_v" +:+ pretty (Z.of_nat n) /\
       body f = "" /\
       docString f =
         "Improved version of " +:+ baseName +:+ "_v"
           +:+ pretty (Z.of_nat n - 1)%Z +:+ ".").
Proof.
  intros Hshape Hne Hls Htpl baseName n.
  destruct (last ls) as [header|] eqn:Hlast;
    [|by apply last_None in Hlast].
  destruct (generatePrompt_post isl ls header h Hlast Hls Htpl)
    as (text & fs' & prog0 & Hprog & Hrun & Hlen & Hcopies).
  pose proof (last_in_range _ _ _ Hlast Hls) as Hheader.
  eexists text, _, _. split; [exact Hrun|].
  cbn [programObjs functionObjs functions].
  split; [apply list_lookup_insert_eq; lia|]. cbn [functions]. split_and!.
  - rewrite length_app, length_map, length_seq. simpl. fold n. lia.
  - intros i Hi. destruct (Hcopies i Hi) as (g & Hg & f & -> & Hname & Hdoc).
    exists (length (functionObjs h) + i), (renameFunctionCalls f baseName (name f)).
    split_and!.
    + rewrite lookup_app_l by (rewrite length_map, length_seq; done).
      change (map Some ?l) with (Some <$> l).
      rewrite list_lookup_fmap, lookup_seq_lt by done. done.
    + rewrite list_lookup_insert_ne by lia. exact Hg.
    + by rewrite (proj1 (Hshape f baseName (name f))).
    + intros H0. rewrite (proj2 (Hshape f baseName (name f))).
      rewrite <- improvedDocString_text. by apply Hdoc.
  - exists header, (headerFunction baseName n). split_and!; try done.
    + rewrite lookup_app_r by (rewrite length_map, length_seq; done).
      rewrite length_map, length_seq. fold n. by rewrite Nat.sub_diag.
    + apply list_lookup_insert_eq. fold n in Hlen. lia.
    + apply improvedDocString_text.
Qed.

(** C10: on a non-empty list of implementations [generatePrompt] changes
    objects that outlive the call.  After it has returned, the island's own
    template object (same location, same context code) holds the new list of
    [n + 1] functions; the last slot of that list is the last input object
    itself, not a copy; and that object now has the name [<baseName>_v<n>],
    an empty body and the docstring referring to [<baseName>_v<n-1>]. *)
Theorem generatePrompt_mutates_shared_objects (isl : Island) (ls : list loc)
    (header : loc) (h : Heap) :
  last ls = Some header ->
  Forall (fun l => l < length (functionObjs h)) ls ->
  template isl < length (programObjs h) ->
  let baseName := nameOffunctionToEvolve isl in
  let n := length ls in
  exists (text : string) (h' : Heap) (prog0 : Program)
         (versionedFunctions : list (option loc)),
    generatePrompt isl (map Some ls) h = (Normal text, h') /\
    programObjs h !! template isl = Some prog0 /\
    programObjs h' !! template isl =
      Some (mkProgram (preface prog0) versionedFunctions) /\
    length versionedFunctions = S n /\
    last versionedFunctions = Some (Some header) /\
    functionObjs h' !! header =
      Some (mkFunction (getVersionedName baseName (Z.of_nat n))
                       (improvedDocString baseName (Z.of_nat n - 1)) "").
Proof.
  intros Hlast Hls Htpl baseName n.
  destruct (generatePrompt_post isl ls header h Hlast Hls Htpl)
    as (text & fs' & prog0 & Hprog & Hrun & Hlen & Hcopies).
  pose proof (last_in_range _ _ _ Hlast Hls) as Hheader.
  eexists text, _, prog0, _. split; [exact Hrun|].
  cbn [programObjs functionObjs]. split_and!.
  - done.
  - apply list_lookup_insert_eq. lia.
  - rewrite length_app, length_map, length_seq. simpl. fold n. lia.
  - apply last_snoc.
  - apply list_lookup_insert_eq. lia.
Qed.

(** C3 (amended): [generatePrompt] on the empty list does not return: the
    header is [undefined] and the assignment to its [name] throws the
    runtime's TypeError; no error of the program's own is raised and the
    heap is unchanged.  [getPrompt] on an island without clusters draws
    nothing and fails in the same way. *)
Theorem generatePrompt_empty_TypeError (isl : Island) (h : Heap) (r : Rng) :
  generatePrompt isl [] h = (Throw undefined_name_error, h) /\
  getPrompt (set_clusters isl []) r h = (Throw undefined_name_error, h, r).
Proof.
  split; [done|].
  unfold getPrompt, drawImplementations, sampleK. simpl.
  replace (Z.to_nat (Z.min (Z.of_nat 0) (functionsPerPrompt isl))) with 0 by lia.
  done.
Qed.

(** ** Sampling *)

Lemma drawIndices_spec (n : nat) (ps : list Q) :
  draws_in_range -> ps <> [] ->
  forall r : Rng,
    length (fst (drawIndices n ps r)) = n /\
    Forall (fun i => i < length ps) (fst (drawIndices n ps r)).
Proof.
  intros Hdraw Hps. induction n as [|n IH]; intros r; simpl.
  - by split.
  - pose proof (Hdraw ps r Hps) as Hi.
    destruct (getRandomWeightedIndex ps r) as [index r1]. simpl in Hi.
    specialize (IH r1). destruct (drawIndices n ps r1) as [rest r2].
    simpl in *. destruct IH as [IH1 IH2]. split; [by rewrite IH1|].
    by constructor.
Qed.

Lemma Map_get_key (m : JsMap) (k : Signature) :
  In k (Map_keys m) -> exists c, Map_get m k = Some c /\ In (k, c) m.
Proof.
  induction m as [|[k' c'] m IH]; simpl; [done|]. intros Hk.
  destruct (Nat.eqb_spec k' k) as [->|Hne].
  - exists c'. split; [done|by left].
  - destruct Hk as [?|Hk]; [done|].
    destruct (IH Hk) as (c & Hc & Hin). exists c. split; [done|by right].
Qed.

Lemma collect_valid (cl : JsMap) (N : nat) :
  samples_member ->
  Forall (fun e => members (snd e) <> [] /\
                   Forall (fun l => l < N) (members (snd e))) cl ->
  forall (chosen : list (option Signature)) (r : Rng),
    Forall (fun sg => exists k, sg = Some k /\ In k (Map_keys cl)) chosen ->
    exists ls : list loc,
      fst (fst (collect cl chosen r)) = map Some ls /\
      length ls = length chosen /\
      Forall (fun l => l < N) ls.
Proof.
  intros Hsample Hcl. induction chosen as [|sg chosen IH]; intros r Hch.
  - by exists [].
  - apply Forall_cons in Hch as [(k & -> & Hk) Hch].
    destruct (Map_get_key cl k Hk) as (c & Hc & Hin). simpl. rewrite Hc.
    pose proof (proj1 (Forall_forall _ _) Hcl (k, c)
                  (proj2 (list_elem_of_In _ _) Hin)) as [Hne Hmem].
    simpl in Hne, Hmem.
    pose proof (Hsample c r Hne) as Hp.
    destruct (sampleProgram c r) as [program r1]. simpl in Hp.
    destruct (IH r1 Hch) as (ls & Hls & Hlen & Hall).
    destruct (collect cl chosen r1) as [[impls scs] r2]. simpl in *.
    exists (program :: ls). simpl. rewrite Hls, Hlen. split_and!; [done|done|].
    constructor; [|done].
    exact (proj1 (Forall_forall _ _) Hmem program
             (proj2 (list_elem_of_In _ _) Hp)).
Qed.

Lemma pick_valid (ls : list loc) (N : nat) (idx : list nat) :
  Forall (fun l => l < N) ls ->
  Forall (fun i => i < length ls) idx ->
  exists ls2 : list loc,
    map (fun i => mjoin (map Some ls !! i)) idx = map Some ls2 /\
    length ls2 = length idx /\
    Forall (fun l => l < N) ls2.
Proof.
  intros Hls. induction 1 as [|i idx Hi _ IH].
  - by exists [].
  - destruct IH as (ls2 & Heq & Hlen & Hall).
    destruct (lookup_lt_is_Some_2 ls i Hi) as [l Hl].
    exists (l :: ls2). simpl. rewrite Heq, Hlen.
    change (map Some ls) with (Some <$> ls).
    rewrite list_lookup_fmap, Hl. simpl. split_and!; [done|done|].
    constructor; [|done].
    exact (proj1 (Forall_forall _ _) Hls l (list_elem_of_lookup_2 _ _ _ Hl)).
Qed.

Lemma sortImplementations_valid (ls : list loc) (scs : list Q) (N : nat) :
  length ls = length scs ->
  Forall (fun l => l < N) ls ->
  exists ls2 : list loc,
    sortImplementations (map Some ls) scs = map Some ls2 /\
    length ls2 = length ls /\
    Forall (fun l => l < N) ls2.
Proof.
  intros Hlen Hls. unfold sortImplementations.
  destruct (pick_valid ls N (indicesSortedByScore scs) Hls)
    as (ls2 & Heq & Hlen2 & Hall).
  - unfold indicesSortedByScore. rewrite Array_sort_perm.
    apply Forall_forall. intros i Hi. apply elem_of_seq in Hi. lia.
  - exists ls2. split_and!; [done| |done].
    rewrite Hlen2. unfold indicesSortedByScore.
    by rewrite Array_sort_perm, length_seq.
Qed.

Lemma drawImplementations_valid (isl : Island) (r : Rng) (h : Heap) :
  draws_in_range -> softmax_keeps_length -> samples_member ->
  island_wf isl h ->
  (1 <= sampleK isl)%Z ->
  exists ls : list loc,
    fst (fst (drawImplementations isl r)) = map Some ls /\
    length ls = Z.to_nat (sampleK isl) /\
    Forall (fun l => l < length (functionObjs h)) ls.
Proof.
  intros Hdraw Hsoft Hsample [_ Hwf] Hk. unfold drawImplementations.
  assert (Hsigs : length (probabilities isl) = length (signatures isl)).
  { unfold probabilities. rewrite Hsoft. unfold scores. by rewrite length_map. }
  assert (Hps : probabilities isl <> []).
  { intros Hnil. rewrite Hnil in Hsigs. unfold sampleK in Hk.
    simpl in Hsigs. lia. }
  destruct (drawIndices_spec (Z.to_nat (sampleK isl)) (probabilities isl)
              Hdraw Hps r) as [Hn Hrange].
  destruct (drawIndices _ _ r) as [indices r1]. simpl in Hn, Hrange.
  destruct (collect_valid (clusters isl) (length (functionObjs h)) Hsample Hwf
              (map (fun index => signatures isl !! index) indices) r1)
    as (ls & Hls & Hlen & Hall).
  - apply Forall_forall. intros sg Hsg.
    apply list_elem_of_In, in_map_iff in Hsg as (i & <- & Hi).
    apply list_elem_of_In in Hi.
    pose proof (proj1 (Forall_forall _ _) Hrange i Hi) as Hlt. simpl in Hlt.
    rewrite Hsigs in Hlt.
    destruct (lookup_lt_is_Some_2 (signatures isl) i Hlt) as [k Hk'].
    exists k. split; [done|].
    apply list_elem_of_In. by eapply list_elem_of_lookup_2.
  - exists ls. rewrite length_map in Hlen. by rewrite Hlen, Hn.
Qed.

(** C5 (amended): when [k = min(functionsPerPrompt, number of signatures)]
    is at least 1, and the collaborators honour their contracts on an island
    whose objects exist, [getPrompt] draws exactly [k] implementations and
    returns normally with [k + 1] as its second component. *)
Theorem getPrompt_version_number (isl : Island) (r : Rng) (h : Heap) :
  draws_in_range -> softmax_keeps_length -> samples_member ->
  island_wf isl h ->
  (1 <= sampleK isl)%Z ->
  sampleK isl = Z.min (functionsPerPrompt isl)
                      (Z.of_nat (length (signatures isl))) /\
  length (fst (fst (drawImplementations isl r))) = Z.to_nat (sampleK isl) /\
  exists (text : string) (h' : Heap) (r' : Rng),
    getPrompt isl r h = (Normal (text, (sampleK isl + 1)%Z), h', r').
Proof.
  intros Hdraw Hsoft Hsample Hwf Hk.
  destruct (drawImplementations_valid isl r h Hdraw Hsoft Hsample Hwf Hk)
    as (ls & Hls & Hlen & Hall).
  split; [unfold sampleK; lia|].
  split; [by rewrite Hls, length_map|].
  unfold getPrompt.
  assert (Hscs : length (fst (fst (drawImplementations isl r))) =
                 length (snd (fst (drawImplementations isl r)))).
  { unfold drawImplementations. destruct (drawIndices _ _ r) as [indices r1].
    apply collect_lengths. }
  destruct (drawImplementations isl r) as [[implementations scs] r1].
  simpl in Hls, Hscs. subst implementations. rewrite length_map in Hscs.
  destruct (sortImplementations_valid ls scs _ Hscs Hall)
    as (ls2 & -> & Hlen2 & Hall2).
  destruct (last ls2) as [header|] eqn:Hlast.
  - destruct Hwf as [Htpl _].
    destruct (generatePrompt_post isl ls2 header h Hlast Hall2 Htpl)
      as (text & fs' & prog0 & _ & Hrun & _).
    rewrite Hrun. rewrite length_map.
    replace (Z.of_nat (length ls2)) with (sampleK isl) by lia.
    by eexists text, _, r1.
  - apply last_None in Hlast. subst ls2. simpl in Hlen2. lia.
Qed.

(** * Further properties of the class *)

(** ** Versioned names *)

Lemma string_length_app (s1 s2 : string) :
  String.length (s1 +:+ s2) = String.length s1 + String.length s2.
Proof. induction s1 as [|c s1 IH]; simpl; [done|by rewrite IH]. Qed.

Lemma getVersionedName_inj (nm : string) (v1 v2 : Z) :
  getVersionedName nm v1 = getVersionedName nm v2 -> v1 = v2.
Proof.
  unfold getVersionedName. intros H. apply (inj (String.append nm)) in H.
  apply (inj (String.append "_v")) in H. by apply (inj pretty) in H.
Qed.

(** X1: [getVersionedName] tells versions apart: for one name, two versions
    that give equal results are equal; and a versioned name is never the
    name itself. *)
Theorem getVersionedName_distinct (nm : string) (v1 v2 : Z) :
  (getVersionedName nm v1 = getVersionedName nm v2 -> v1 = v2) /\
  getVersionedName nm v1 <> nm.
Proof.
  split; [apply getVersionedName_inj|]. unfold getVersionedName.
  - intros H. apply (f_equal String.length) in H.
    rewrite !string_length_app in H. simpl in H. lia.
Qed.

(** ** More on the temperature *)

Lemma inject_Z_nonzero (p : Z) : p <> 0%Z -> ~ (inject_Z p == 0)%Q.
Proof. intros Hp H. unfold Qeq in H. simpl in H. lia. Qed.

(** X2: the schedule is periodic: for a period [P > 0] and a count
    [numPrograms >= 0], adding a whole number of periods to the count leaves
    the temperature unchanged. *)
Theorem temperature_periodic (isl : Island) (n k : Z) :
  (0 < clusterSamplingTemperaturePeriod isl)%Z ->
  (0 <= n)%Z -> (0 <= k)%Z ->
  temperature (with_numPrograms isl
                 (n + k * clusterSamplingTemperaturePeriod isl)) =
  temperature (with_numPrograms isl n).
Proof.
  intros HP Hn Hk. rewrite !temperature_value by (simpl; lia). simpl.
  rewrite !Z.rem_mod_nonneg by nia. by rewrite Z_mod_plus_full.
Qed.

Lemma inject_Z_pos (p : Z) : (0 < p)%Z -> (0 < inject_Z p)%Q.
Proof. intros Hp. change 0%Q with (inject_Z 0). by rewrite <- Zlt_Qlt. Qed.

Lemma ratio_in_unit (r p : Z) :
  (0 < p)%Z -> (0 <= r < p)%Z ->
  (0 <= inject_Z r / inject_Z p)%Q /\
  (inject_Z r / inject_Z p + / inject_Z p <= 1)%Q /\
  (0 < / inject_Z p)%Q.
Proof.
  intros Hp Hr. pose proof (inject_Z_pos p Hp) as Hq. split_and!.
  - apply Qle_shift_div_l; [done|]. rewrite Qmult_0_l.
    change 0%Q with (inject_Z 0). rewrite <- Zle_Qle. lia.
  - assert (E : (inject_Z r / inject_Z p + / inject_Z p
                 == inject_Z (r + 1) / inject_Z p)%Q).
    { rewrite inject_Z_plus. change (inject_Z 1) with 1%Q. field.
      apply inject_Z_nonzero. lia. }
    rewrite E. apply Qle_shift_div_r; [done|]. rewrite Qmult_1_l.
    rewrite <- Zle_Qle. lia.
  - by apply Qinv_lt_0_compat.
Qed.

(** A value the rounding keeps bounds the rounded results like the exact
    ones. *)
Lemma rounding_lower (rnd : Q -> Q) (a x : Q) :
  rounding rnd -> (rnd a == a)%Q -> (a <= x)%Q -> (a <= rnd x)%Q.
Proof.
  intros (Hmono & _) Ha Hx. apply Qle_trans with (rnd a); [|by apply Hmono].
  apply Qle_lteq. right. by symmetry.
Qed.

Lemma rounding_upper (rnd : Q -> Q) (a x : Q) :
  rounding rnd -> (rnd a == a)%Q -> (x <= a)%Q -> (rnd x <= a)%Q.
Proof.
  intros (Hmono & _) Ha Hx. apply Qle_trans with (rnd a); [by apply Hmono|].
  apply Qle_lteq. by right.
Qed.

(** The schedule's rounded factor [1 - r / P] stays between 0 and 1 for a
    remainder [0 <= r < P]. *)
Lemma rounded_factor_in_unit (rnd : Q -> Q) (r p : Z) :
  rounding rnd -> (0 < p)%Z -> (0 <= r < p)%Z ->
  (0 <= rnd (1 - rnd (inject_Z r / inject_Z p)) <= 1)%Q.
Proof.
  intros Hrnd Hp Hr. pose proof Hrnd as (_ & H0 & H1).
  destruct (ratio_in_unit r p Hp Hr) as (Hx0 & Hx1 & Hc).
  set (x := (inject_Z r / inject_Z p)%Q) in *.
  assert (Hx : (0 <= rnd x <= 1)%Q).
  { split; [apply rounding_lower|apply rounding_upper]; (done || lra). }
  split; [apply rounding_lower|apply rounding_upper]; (done || lra).
Qed.

(** X3: in floating-point arithmetic (any monotone rounding that keeps 0, 1
    and [T0]), for [T0 >= 0], a period [P > 0] and a count
    [numPrograms >= 0], the temperature is a number between 0 and [T0]: the
    schedule never leaves the range it starts from. *)
Theorem temperature_bounds (rnd : Q -> Q) (isl : Island) (n : Z) :
  rounding rnd ->
  (rnd (clusterSamplingTemperatureInit isl)
   == clusterSamplingTemperatureInit isl)%Q ->
  (0 < clusterSamplingTemperaturePeriod isl)%Z ->
  (0 <= clusterSamplingTemperatureInit isl)%Q ->
  (0 <= n)%Z ->
  exists t : Q,
    temperature_rounded rnd (with_numPrograms isl n) = Some t /\
    (0 <= t)%Q /\
    (t <= clusterSamplingTemperatureInit isl)%Q.
Proof.
  intros Hr HrT HP HT Hn.
  set (P := clusterSamplingTemperaturePeriod isl) in *.
  set (T0 := clusterSamplingTemperatureInit isl) in *.
  eexists. split; [apply temperature_rounded_value; simpl; fold P; lia|].
  simpl. fold P T0. rewrite Z.rem_mod_nonneg by lia.
  pose proof (rounded_factor_in_unit rnd (n mod P) P Hr HP
                (Z.mod_pos_bound n P HP)) as Hy.
  pose proof Hr as (_ & H0 & _).
  set (y := rnd (1 - rnd (inject_Z (n mod P) / inject_Z P))%Q) in *.
  split; [apply rounding_lower|apply rounding_upper]; (done || nra).
Qed.

(** X4: a negative period is accepted and reverses the schedule: for
    [T0 > 0], [P < 0] and a count [numPrograms >= 0] the temperature is a
    number that is never below [T0]. *)
Theorem temperature_negative_period (isl : Island) (n : Z) :
  (clusterSamplingTemperaturePeriod isl < 0)%Z ->
  (0 < clusterSamplingTemperatureInit isl)%Q ->
  (0 <= n)%Z ->
  exists t : Q,
    temperature (with_numPrograms isl n) = Some t /\
    (clusterSamplingTemperatureInit isl <= t)%Q.
Proof.
  intros HP HT Hn.
  set (P := clusterSamplingTemperaturePeriod isl) in *.
  set (T0 := clusterSamplingTemperatureInit isl) in *.
  eexists. split; [apply temperature_value; simpl; fold P; lia|]. simpl.
  fold P T0.
  pose proof (Z.rem_nonneg n P ltac:(lia) Hn) as Hr.
  assert (Hx : (inject_Z (Z.rem n P) / inject_Z P <= 0)%Q).
  { assert (E : (inject_Z (Z.rem n P) / inject_Z P
                 == - (inject_Z (Z.rem n P) / inject_Z (- P)))%Q).
    { rewrite inject_Z_opp. field. apply inject_Z_nonzero. lia. }
    rewrite E.
    assert (0 <= inject_Z (Z.rem n P) / inject_Z (- P))%Q; [|lra].
    apply Qle_shift_div_l; [apply inject_Z_pos; lia|]. rewrite Qmult_0_l.
    change 0%Q with (inject_Z 0). by rewrite <- Zle_Qle. }
  set (x := (inject_Z (Z.rem n P) / inject_Z P)%Q) in *. nra.
Qed.

(** X5: the remainder follows the sign of the count: in floating-point
    arithmetic (any monotone rounding that keeps 0, 1 and [T0]), for
    [T0 >= 0], a period [P > 0] and a negative count (the constructor accepts
    one), the temperature is a number that is never below [T0]. *)
Theorem temperature_negative_count (rnd : Q -> Q) (isl : Island) (n : Z) :
  rounding rnd ->
  (rnd (clusterSamplingTemperatureInit isl)
   == clusterSamplingTemperatureInit isl)%Q ->
  (0 < clusterSamplingTemperaturePeriod isl)%Z ->
  (0 <= clusterSamplingTemperatureInit isl)%Q ->
  (n < 0)%Z ->
  number_le (Some (clusterSamplingTemperatureInit isl))
            (temperature_rounded rnd (with_numPrograms isl n)).
Proof.
  intros Hr HrT HP HT Hn. pose proof Hr as (_ & H0 & H1).
  set (P := clusterSamplingTemperaturePeriod isl) in *.
  set (T0 := clusterSamplingTemperatureInit isl) in *.
  rewrite temperature_rounded_value by (simpl; fold P; lia). simpl. fold P T0.
  pose proof (Z.rem_nonpos n P ltac:(lia) ltac:(lia)) as Hrem.
  assert (Hx : (inject_Z (Z.rem n P) / inject_Z P <= 0)%Q).
  { pose proof (inject_Z_pos P HP) as Hq.
    apply Qle_shift_div_r; [done|]. rewrite Qmult_0_l.
    change 0%Q with (inject_Z 0). by rewrite <- Zle_Qle. }
  set (x := (inject_Z (Z.rem n P) / inject_Z P)%Q) in *.
  assert (Hrx : (rnd x <= 0)%Q) by (by apply rounding_upper).
  assert (Hy : (1 <= rnd (1 - rnd x))%Q) by (apply rounding_lower; (done || lra)).
  apply rounding_lower; (done || nra).
Qed.

(** ** More on registration *)

Lemma registerProgram_frame (isl : Island) (program : loc)
    (scoresPerTest : ScoresPerTest) (h : Heap) :
  let isl' := fst (registerProgram isl program scoresPerTest h) in
  let h' := snd (registerProgram isl program scoresPerTest h) in
  numPrograms isl' = (numPrograms isl + 1)%Z /\
  template isl' = template isl /\
  nameOffunctionToEvolve isl' = nameOffunctionToEvolve isl /\
  functionsPerPrompt isl' = functionsPerPrompt isl /\
  clusterSamplingTemperatureInit isl' = clusterSamplingTemperatureInit isl /\
  clusterSamplingTemperaturePeriod isl' = clusterSamplingTemperaturePeriod isl /\
  functionObjs h' = functionObjs h /\
  programObjs h' = programObjs h /\
  arrayObjs h' = arrayObjs h ++ [Object_values scoresPerTest].
Proof.
  unfold registerProgram, getSignature, alloc_array. rewrite map_id.
  destruct (negb (Map_has (clusters isl) (length (arrayObjs h)))); [done|].
  by destruct (Map_get (clusters isl) (length (arrayObjs h))).
Qed.

(** What every registration keeps, every sequence of registrations keeps. *)
Lemma registerAll_invariant (Inv : Island -> Heap -> Prop) :
  (forall isl program scoresPerTest h,
     Inv isl h ->
     Inv (fst (registerProgram isl program scoresPerTest h))
         (snd (registerProgram isl program scoresPerTest h))) ->
  forall regs isl h,
    Inv isl h ->
    Inv (fst (registerAll isl regs h)) (snd (registerAll isl regs h)).
Proof.
  intros Hstep. induction regs as [|[program scoresPerTest] regs IH];
    intros isl h Hinv; [done|].
  cbn [registerAll]. specialize (Hstep isl program scoresPerTest h Hinv).
  destruct (registerProgram isl program scoresPerTest h) as [isl1 h1].
  by apply IH.
Qed.

Lemma registerAll_config (regs : list (loc * ScoresPerTest)) (isl : Island)
    (h : Heap) :
  let isl' := fst (registerAll isl regs h) in
  let h' := snd (registerAll isl regs h) in
  template isl' = template isl /\
  functionsPerPrompt isl' = functionsPerPrompt isl /\
  clusterSamplingTemperatureInit isl' = clusterSamplingTemperatureInit isl /\
  clusterSamplingTemperaturePeriod isl' = clusterSamplingTemperaturePeriod isl /\
  functionObjs h' = functionObjs h /\
  programObjs h' = programObjs h.
Proof.
  apply (registerAll_invariant
           (fun isl' h' =>
              template isl' = template isl /\
              functionsPerPrompt isl' = functionsPerPrompt isl /\
              clusterSamplingTemperatureInit isl'
                = clusterSamplingTemperatureInit isl /\
              clusterSamplingTemperaturePeriod isl'
                = clusterSamplingTemperaturePeriod isl /\
              functionObjs h' = functionObjs h /\
              programObjs h' = programObjs h)); [|done].
  intros isl0 program scoresPerTest h0 (H1 & H2 & H3 & H4 & H5 & H6).
  destruct (registerProgram_frame isl0 program scoresPerTest h0)
    as (_ & F1 & _ & F2 & F3 & F4 & F5 & F6 & _).
  by rewrite F1, F2, F3, F4, F5, F6.
Qed.

(** X6: registrations change nothing but the clusters, the counter and the
    signature arrays.  After any sequence of [n] registrations on an island
    whose counter stays within the integers that a number holds exactly
    (from [-2^53] to [2^53]), [numPrograms] has grown by exactly [n], the
    template reference, the name, [functionsPerPrompt], [T0] and the period
    are the same, no function or program object has been touched, and the
    heap holds [n] more arrays: the values of the score mappings, in
    registration order. *)
Theorem registerAll_frame (regs : list (loc * ScoresPerTest)) (isl : Island)
    (h : Heap) :
  (- 2 ^ 53 <= numPrograms isl)%Z ->
  (numPrograms isl + Z.of_nat (length regs) <= 2 ^ 53)%Z ->
  let isl' := fst (registerAll isl regs h) in
  let h' := snd (registerAll isl regs h) in
  numPrograms isl' = (numPrograms isl + Z.of_nat (length regs))%Z /\
  template isl' = template isl /\
  nameOffunctionToEvolve isl' = nameOffunctionToEvolve isl /\
  functionsPerPrompt isl' = functionsPerPrompt isl /\
  clusterSamplingTemperatureInit isl' = clusterSamplingTemperatureInit isl /\
  clusterSamplingTemperaturePeriod isl' = clusterSamplingTemperaturePeriod isl /\
  functionObjs h' = functionObjs h /\
  programObjs h' = programObjs h /\
  arrayObjs h' = arrayObjs h ++ map (fun reg => Object_values (snd reg)) regs.
Proof.
  revert isl h. induction regs as [|[program scoresPerTest] regs IH];
    intros isl h Hlo Hhi; cbv zeta.
  - simpl. rewrite app_nil_r. split_and!; (done || lia).
  - cbn [registerAll].
    pose proof (registerProgram_frame isl program scoresPerTest h) as Hstep.
    destruct (registerProgram isl program scoresPerTest h) as [isl1 h1].
    cbv zeta in Hstep. simpl in Hstep.
    destruct Hstep as (H1 & H2 & H3 & H4 & H5 & H6 & H7 & H8 & H9).
    cbn [length] in Hhi.
    destruct (IH isl1 h1 ltac:(lia) ltac:(lia))
      as (I1 & I2 & I3 & I4 & I5 & I6 & I7 & I8 & I9).
    rewrite I1, I2, I3, I4, I5, I6, I7, I8, I9, H1, H2, H3, H4, H5, H6, H7, H8, H9.
    simpl. rewrite <- app_assoc. simpl. split_and!; (done || lia).
Qed.

(** X7: registration never touches an existing cluster.  On an island whose
    signature keys are arrays of the heap, after any sequence of
    registrations every entry of the map is still at its position with the
    same score and members, the new entries follow in registration order,
    and so [signatures] only grows at its end. *)
Theorem registerAll_keeps_clusters (regs : list (loc * ScoresPerTest))
    (isl : Island) (h : Heap) :
  keys_allocated (clusters isl) h ->
  let isl' := fst (registerAll isl regs h) in
  (forall i e, clusters isl !! i = Some e -> clusters isl' !! i = Some e) /\
  length (clusters isl') = length (clusters isl) + length regs /\
  signatures isl' =
    signatures isl ++ seq (length (arrayObjs h)) (length regs).
Proof.
  intros Hk. destruct (registerAll_entries regs isl h Hk) as (Hc & _ & _).
  cbv zeta. unfold signatures, Map_keys. rewrite Hc. split_and!.
  - intros i e Hi. by apply lookup_app_l_Some.
  - by rewrite length_app, length_imap.
  - rewrite map_app. f_equal.
    change (map fst ?l) with (fst <$> l). rewrite fmap_imap.
    unfold newEntry.
    rewrite <- (list_fmap_id (seq _ _)),
      <- (imap_seq regs id (length (arrayObjs h))).
    by apply imap_ext.
Qed.

Lemma Map_get_entry (m : JsMap) (k : Signature) (c : Cluster) :
  NoDup (Map_keys m) -> In (k, c) m -> Map_get m k = Some c.
Proof.
  induction m as [|[k' c'] m IH]; simpl; [done|].
  intros Hnd [Heq|Hin].
  - injection Heq as -> ->. by rewrite Nat.eqb_refl.
  - apply NoDup_cons in Hnd as [Hk' Hnd].
    destruct (Nat.eqb_spec k' k) as [->|_]; [|by apply IH].
    destruct Hk'. apply list_elem_of_In. apply in_map_iff. by exists (k, c).
Qed.

Lemma scores_of_entries (read : Cluster -> number) (m entries : JsMap) :
  (forall e, In e entries -> Map_get m (fst e) = Some (snd e)) ->
  Forall2 (fun x e => match read (snd e) with
                      | Some q => (x == q)%Q
                      | None => x = 0%Q
                      end)
    (map (fun signature =>
            match Map_get m signature with
            | Some c => or_zero (read c)
            | None => 0%Q
            end)
         (map fst entries))
    entries.
Proof.
  induction entries as [|e entries IH]; intros Hall; simpl; [constructor|].
  constructor.
  - rewrite (Hall e) by (by left). unfold or_zero.
    destruct (read (snd e)) as [q|]; [|done].
    destruct (Qeq_bool q 0) eqn:Hz; [|reflexivity].
    apply Qeq_bool_iff in Hz. by rewrite Hz.
  - apply IH. intros e' He'. apply Hall. by right.
Qed.

(** X8: [scores] runs parallel to [signatures], and the fallback to 0
    changes a value only when it is not a number.  The getter is
    [scores_read] at the stored scores; and however the score field of a
    cluster reads, on a map with distinct keys (which a [Map] guarantees)
    the [i]-th score is, as a number, the score of the [i]-th cluster when
    that is a number, and 0 when it is NaN. *)
Theorem scores_are_cluster_scores (read : Cluster -> number) (isl : Island) :
  NoDup (signatures isl) ->
  scores_read (fun c => Some (score c)) isl = scores isl /\
  length (scores_read read isl) = length (signatures isl) /\
  Forall2 (fun x e => match read (snd e) with
                      | Some q => (x == q)%Q
                      | None => x = 0%Q
                      end)
          (scores_read read isl) (clusters isl).
Proof.
  intros Hnd. split; [reflexivity|].
  split; [unfold scores_read; by rewrite length_map|].
  apply scores_of_entries. intros [k c] He. by apply Map_get_entry.
Qed.

Lemma newEntry_keys (N : nat) (regs : list (loc * ScoresPerTest)) :
  map fst (imap (newEntry N) regs) = seq N (length regs).
Proof.
  change (map fst ?l) with (fst <$> l). rewrite fmap_imap. unfold newEntry.
  rewrite <- (list_fmap_id (seq _ _)), <- (imap_seq regs id N).
  by apply imap_ext.
Qed.

(** X9: registrations can be read back.  After any sequence of
    registrations on a fresh island, [signatures] lists the arrays created
    by the registrations, in order, and the array under the [i]-th signature
    holds the values of the [i]-th score mapping. *)
Theorem getters_after_registrations tpl nm fpp t0 period
    (regs : list (loc * ScoresPerTest)) (h : Heap) :
  let isl' := fst (registerAll (Island_fresh tpl nm fpp t0 period) regs h) in
  let h' := snd (registerAll (Island_fresh tpl nm fpp t0 period) regs h) in
  signatures isl' = seq (length (arrayObjs h)) (length regs) /\
  Forall2 (fun k reg => arrayObjs h' !! k = Some (Object_values (snd reg)))
          (signatures isl') regs.
Proof.
  pose proof (keys_allocated_fresh tpl nm fpp t0 period h) as Hk.
  destruct (registerAll_entries regs _ h Hk) as (Hc & _ & Ha).
  cbv zeta. simpl in Hc.
  assert (Hsig : signatures (fst (registerAll
                    (Island_fresh tpl nm fpp t0 period) regs h))
                 = seq (length (arrayObjs h)) (length regs)).
  { unfold signatures, Map_keys. rewrite Hc. apply newEntry_keys. }
  split; [exact Hsig|].
  rewrite Hsig, Ha. apply Forall2_same_length_lookup_2.
  { by rewrite length_seq. }
  intros i k reg Hi Hreg. apply lookup_seq in Hi as [-> Hlt].
  rewrite lookup_app_r by lia.
  replace (length (arrayObjs h) + i - length (arrayObjs h)) with i by lia.
  change (map ?f ?l) with (f <$> l). by rewrite list_lookup_fmap, Hreg.
Qed.

(** ** More on prompt assembly *)

Lemma forEach_impl_step (baseName : string) (l : loc) (f : Function)
    (rest : list (option loc)) (i : nat) (acc : list (option loc)) (h : Heap) :
  functionObjs h !! l = Some f ->
  forEach_impl baseName (Some l :: rest) i acc h =
  forEach_impl baseName rest (S i) (acc ++ [Some (length (functionObjs h))])
    (set_functionObjs h
       (<[l := renamedInput baseName i f]> (functionObjs h) ++
          [renameFunctionCalls (renamedInput baseName i f) baseName
             (getVersionedName baseName (Z.of_nat i))])).
Proof.
  intros Hf. pose proof (lookup_lt_Some _ _ _ Hf) as Hl.
  cbn [forEach_impl]. unfold bind at 1, set_name.
  rewrite (write_field_at _ _ _ _ _ Hf).
  unfold bind at 1, renamedInput. destruct (0 <? i).
  - unfold set_docString.
    erewrite write_field_at; [|simpl; by apply list_lookup_insert_eq].
    cbn [functionObjs set_functionObjs name docString body].
    rewrite list_insert_insert_eq.
    unfold bind at 1.
    erewrite read_function_at; [|simpl; by apply list_lookup_insert_eq].
    unfold bind at 1, alloc_function.
    cbn [functionObjs set_functionObjs programObjs arrayObjs name].
    by rewrite length_insert.
  - unfold ret at 1. unfold bind at 1.
    erewrite read_function_at; [|simpl; by apply list_lookup_insert_eq].
    unfold bind at 1, alloc_function.
    cbn [functionObjs set_functionObjs programObjs arrayObjs name].
    by rewrite length_insert.
Qed.

Lemma renamedInput_S (baseName : string) (k : nat) (f g : Function) :
  body g = body f ->
  renamedInput baseName (S k) g = renamedInput baseName (S k) f.
Proof. intros Hb. unfold renamedInput. simpl. by rewrite Hb. Qed.

(** The loop on any list of objects (repetitions allowed): what it leaves
    in the objects it is not given, in every copy, and in every input object
    after its last visit. *)
Lemma forEach_impl_inputs (baseName : string) (N0 : nat) (ls : list loc) :
  forall (i : nat) (acc : list (option loc)) (h : Heap),
    Forall (fun l => l < N0) ls ->
    N0 <= length (functionObjs h) ->
    exists fs' : list Function,
      forEach_impl baseName (map Some ls) i acc h =
        (Normal (acc ++ map Some (seq (length (functionObjs h)) (length ls))),
         set_functionObjs h fs') /\
      length fs' = length (functionObjs h) + length ls /\
      (forall l, l < length (functionObjs h) -> l ∉ ls ->
         fs' !! l = functionObjs h !! l) /\
      (forall j l f, ls !! j = Some l -> functionObjs h !! l = Some f ->
         fs' !! (length (functionObjs h) + j) =
           Some (renameFunctionCalls (renamedInput baseName (i + j) f) baseName
                   (getVersionedName baseName (Z.of_nat (i + j))))) /\
      (forall j l f, ls !! j = Some l ->
         (forall j', j < j' -> ls !! j' <> Some l) ->
         functionObjs h !! l = Some f ->
         fs' !! l = Some (renamedInput baseName (i + j) f)).
Proof.
  induction ls as [|l ls IH]; intros i acc h Hls HN.
  - exists (functionObjs h). simpl. rewrite app_nil_r. split_and!.
    + by destruct h.
    + lia.
    + done.
    + intros j l f Hj. by rewrite lookup_nil in Hj.
    + intros j l f Hj. by rewrite lookup_nil in Hj.
  - apply Forall_cons in Hls as [Hl Hls].
    destruct (lookup_lt_is_Some_2 (functionObjs h) l) as [f Hf]; [lia|].
    cbn [map]. rewrite (forEach_impl_step _ _ _ _ _ _ _ Hf).
    set (f2 := renamedInput baseName i f).
    set (F3 := <[l := f2]> (functionObjs h) ++
                 [renameFunctionCalls f2 baseName
                    (getVersionedName baseName (Z.of_nat i))]).
    assert (Hlen3 : length F3 = S (length (functionObjs h))).
    { subst F3. rewrite length_app, length_insert. simpl. lia. }
    assert (Hold : forall l' f', functionObjs h !! l' = Some f' ->
              exists f3, F3 !! l' = Some f3 /\ body f3 = body f' /\
                         (l' <> l -> f3 = f')).
    { intros l' f' Hf'. pose proof (lookup_lt_Some _ _ _ Hf') as Hlt.
      subst F3. rewrite lookup_app_l by (by rewrite length_insert).
      destruct (decide (l' = l)) as [->|Hne].
      - rewrite list_lookup_insert_eq by done. exists f2.
        rewrite Hf in Hf'. injection Hf' as <-. by split_and!.
      - rewrite list_lookup_insert_ne by done. by exists f'. }
    destruct (IH (S i) (acc ++ [Some (length (functionObjs h))])
                (set_functionObjs h F3) Hls)
      as (fs' & Hrun & Hlen & Hframe & Hcopies & Hin); [simpl; lia|].
    cbn [functionObjs set_functionObjs] in Hrun, Hlen, Hframe, Hcopies, Hin.
    assert (Hbeyond : length (functionObjs h) ∉ ls).
    { intros Hin'. apply (proj1 (Forall_forall _ _) Hls) in Hin'. lia. }
    exists fs'. rewrite Hrun, Hlen3. split_and!.
    + f_equal. rewrite <- app_assoc. by simpl.
    + rewrite Hlen, Hlen3. simpl. lia.
    + intros l' Hl' Hnotin. apply not_elem_of_cons in Hnotin as [Hne Hnotin].
      rewrite Hframe by (done || lia). subst F3.
      rewrite lookup_app_l by (rewrite length_insert; lia).
      by apply list_lookup_insert_ne.
    + intros j l' f' Hj Hf'. destruct j as [|j].
      * injection Hj as <-. rewrite Hf in Hf'. injection Hf' as <-.
        rewrite !Nat.add_0_r. rewrite Hframe by (done || lia).
        subst F3. rewrite lookup_app_r by (rewrite length_insert; lia).
        by rewrite length_insert, Nat.sub_diag.
      * simpl in Hj. destruct (Hold l' f' Hf') as (f3 & Hf3 & Hb & _).
        replace (i + S j) with (S (i + j)) by lia.
        rewrite <- (renamedInput_S baseName (i + j) f' f3 Hb).
        replace (length (functionObjs h) + S j)
          with (length F3 + j) by lia.
        by apply (Hcopies j l').
    + intros j l' f' Hj Hlast Hf'. destruct j as [|j].
      * injection Hj as <-. rewrite Hf in Hf'. injection Hf' as <-.
        rewrite Nat.add_0_r, Hframe.
        -- subst F3. rewrite lookup_app_l by (rewrite length_insert; lia).
           apply list_lookup_insert_eq. lia.
        -- lia.
        -- intros Hin'. apply list_elem_of_lookup in Hin' as [j' Hj'].
           by apply (Hlast (S j')); [lia|].
      * simpl in Hj. destruct (Hold l' f' Hf') as (f3 & Hf3 & Hb & _).
        replace (i + S j) with (S (i + j)) by lia.
        rewrite <- (renamedInput_S baseName (i + j) f' f3 Hb).
        apply (Hin j l'); [done| |done].
        intros j' Hj'. apply (Hlast (S j')). lia.
Qed.

(** [generatePrompt] on a non-empty list of objects, in full: the heap it
    leaves and the text it returns. *)
Lemma generatePrompt_exact (isl : Island) (ls : list loc) (header : loc)
    (h : Heap) :
  last ls = Some header ->
  Forall (fun l => l < length (functionObjs h)) ls ->
  template isl < length (programObjs h) ->
  let baseName := nameOffunctionToEvolve isl in
  let N0 := length (functionObjs h) in
  let n := length ls in
  let versionedFunctions := map Some (seq N0 n) ++ [Some header] in
  exists (fs1 : list Function) (prog0 : Program) (fns : list Function),
    let hF := mkHeap (<[header := headerFunction baseName n]> fs1)
                (<[template isl := mkProgram (preface prog0) versionedFunctions]>
                   (programObjs h))
                (arrayObjs h) in
    programObjs h !! template isl = Some prog0 /\
    generatePrompt isl (map Some ls) h =
      (Normal (Program_render (preface prog0) fns), hF) /\
    functionsOf hF versionedFunctions = Some fns /\
    length fs1 = N0 + n /\
    (forall l, l < N0 -> l ∉ ls -> fs1 !! l = functionObjs h !! l) /\
    (forall j l f, ls !! j = Some l -> functionObjs h !! l = Some f ->
       fs1 !! (N0 + j) =
         Some (renameFunctionCalls (renamedInput baseName j f) baseName
                 (getVersionedName baseName (Z.of_nat j)))) /\
    (forall j l f, ls !! j = Some l ->
       (forall j', j < j' -> ls !! j' <> Some l) ->
       functionObjs h !! l = Some f ->
       fs1 !! l = Some (renamedInput baseName j f)).
Proof.
  intros Hlast Hls Htpl baseName N0 n versionedFunctions.
  destruct (forEach_impl_inputs baseName N0 ls 0 [] h Hls)
    as (fs1 & Hrun & Hlen & Hframe & Hcopies & Hin); [done|].
  destruct (lookup_lt_is_Some_2 (programObjs h) (template isl) Htpl)
    as [prog0 Hprog].
  pose proof (last_in_range _ _ _ Hlast Hls) as Hheader. fold N0 in Hheader.
  destruct (lookup_lt_is_Some_2 fs1 header) as [f0 Hf0]; [fold N0 in Hlen; lia|].
  set (hF := mkHeap (<[header := headerFunction baseName n]> fs1)
               (<[template isl := mkProgram (preface prog0) versionedFunctions]>
                  (programObjs h))
               (arrayObjs h)).
  assert (Hall : is_Some (functionsOf hF versionedFunctions)).
  { apply mapM_is_Some_2, Forall_forall. intros v Hv. simpl.
    assert (exists l, v = Some l /\ l < length fs1) as (l & -> & Hl).
    { subst versionedFunctions. apply elem_of_app in Hv as [Hv|Hv].
      - apply list_elem_of_In, in_map_iff in Hv as (l & <- & Hl).
        apply in_seq in Hl. exists l. split; [done|]. fold N0 n in Hlen. lia.
      - apply list_elem_of_singleton in Hv as ->. exists header.
        split; [done|]. fold N0 in Hlen. lia. }
    unfold deref. simpl.
    destruct (lookup_lt_is_Some_2 (<[header := headerFunction baseName n]> fs1) l)
      as [g Hg]; [by rewrite length_insert|].
    rewrite Hg. by eexists. }
  destruct Hall as [fns Hfns].
  exists fs1, prog0, fns. cbv zeta. fold hF.
  split_and!; [done| |done|done|done|exact Hcopies|exact Hin].
  unfold generatePrompt. fold baseName. rewrite length_map.
  unfold bind at 1. rewrite Hrun.
  rewrite (last_element_Some _ _ Hlast).
  unfold bind at 1, set_name.
  rewrite (write_field_at _ _ _ f0) by done.
  unfold bind at 1, set_body.
  erewrite write_field_at; [|simpl; apply list_lookup_insert_eq; by eapply lookup_lt_Some].
  unfold bind at 1, set_docString.
  erewrite write_field_at; [|simpl; apply list_lookup_insert_eq;
                             rewrite length_insert; by eapply lookup_lt_Some].
  cbn [functionObjs set_functionObjs name docString body programObjs arrayObjs].
  rewrite !list_insert_insert_eq.
  unfold bind at 1, set_functions.
  cbn [functionObjs set_functionObjs programObjs arrayObjs].
  rewrite Hprog. unfold Program_toString, set_programObjs.
  cbn [functionObjs set_functionObjs programObjs arrayObjs].
  rewrite list_lookup_insert_eq by done.
  cbn [preface functions]. simpl app.
  fold N0 n. fold versionedFunctions. fold (headerFunction baseName n).
  fold hF. unfold functionsOf in Hfns. by rewrite Hfns.
Qed.

(** X10: what [generatePrompt] leaves alone.  On a non-empty list of
    objects it returns normally; the heap then holds exactly one new
    function object per input, every function object that is not in the
    list is as before, no array has changed, and among the program objects
    only the template's function list has changed (its context code is
    kept). *)
Theorem generatePrompt_frame (isl : Island) (ls : list loc) (header : loc)
    (h : Heap) :
  last ls = Some header ->
  Forall (fun l => l < length (functionObjs h)) ls ->
  template isl < length (programObjs h) ->
  exists (text : string) (h' : Heap),
    generatePrompt isl (map Some ls) h = (Normal text, h') /\
    length (functionObjs h') = length (functionObjs h) + length ls /\
    (forall l, l < length (functionObjs h) -> l ∉ ls ->
       functionObjs h' !! l = functionObjs h !! l) /\
    arrayObjs h' = arrayObjs h /\
    length (programObjs h') = length (programObjs h) /\
    (forall p, p <> template isl -> programObjs h' !! p = programObjs h !! p) /\
    preface <$> programObjs h' !! template isl =
      preface <$> programObjs h !! template isl.
Proof.
  intros Hlast Hls Htpl.
  destruct (generatePrompt_exact isl ls header h Hlast Hls Htpl)
    as (fs1 & prog0 & fns & Hprog & Hrun & _ & Hlen & Hframe & _).
  eexists _, _. split; [exact Hrun|].
  cbn [functionObjs programObjs arrayObjs]. split_and!.
  - by rewrite length_insert.
  - intros l Hl Hnotin. rewrite list_lookup_insert_ne; [by apply Hframe|].
    intros <-. apply Hnotin. apply last_Some in Hlast as [ls' ->].
    apply elem_of_app. right. by apply list_elem_of_singleton.
  - done.
  - by rewrite length_insert.
  - intros p Hp. by rewrite list_lookup_insert_ne.
  - rewrite list_lookup_insert_eq by done. by rewrite Hprog.
Qed.

(** X11: [generatePrompt] renames its inputs in place.  After the call,
    every input object other than the header carries the name
    [<baseName>_v<j>] of the last index [j] at which it occurs in the list,
    the docstring referring to [<baseName>_v<j-1>] when [j > 0] (its own
    docstring when [j = 0]), and the body it had. *)
Theorem generatePrompt_renames_inputs (isl : Island) (ls : list loc)
    (header : loc) (h : Heap) :
  last ls = Some header ->
  Forall (fun l => l < length (functionObjs h)) ls ->
  template isl < length (programObjs h) ->
  exists (text : string) (h' : Heap),
    generatePrompt isl (map Some ls) h = (Normal text, h') /\
    forall j l f,
      ls !! j = Some l ->
      (forall j', j < j' -> ls !! j' <> Some l) ->
      S j < length ls ->
      functionObjs h !! l = Some f ->
      functionObjs h' !! l =
        Some (mkFunction
                (getVersionedName (nameOffunctionToEvolve isl) (Z.of_nat j))
                (if 0 <? j
                 then improvedDocString (nameOffunctionToEvolve isl)
                        (Z.of_nat j - 1)
                 else docString f)
                (body f)).
Proof.
  intros Hlast Hls Htpl.
  destruct (generatePrompt_exact isl ls header h Hlast Hls Htpl)
    as (fs1 & prog0 & fns & Hprog & Hrun & _ & Hlen & _ & _ & Hin).
  eexists _, _. split; [exact Hrun|].
  intros j l f Hj Hlastocc Hjn Hf. cbn [functionObjs].
  rewrite list_lookup_insert_ne; [by apply (Hin j l f)|].
  intros <-. apply (Hlastocc (length ls - 1)); [lia|].
  apply last_Some in Hlast as [ls' ->]. rewrite length_app. simpl.
  rewrite lookup_app_r by lia.
  by replace (length ls' + 1 - 1 - length ls') with 0 by lia.
Qed.

(** X12: the first [n] functions of the prompt are new objects made from
    the inputs as they were before the call.  The function at index [j] is
    what the rename utility returns for the [j]-th input with its name set to
    [<baseName>_v<j>], its docstring replaced when [j > 0], and the body the
    object had before the call, whether or not the object occurs again in
    the list or ends as the header. *)
Theorem generatePrompt_copies_inputs (isl : Island) (ls : list loc)
    (header : loc) (h : Heap) :
  last ls = Some header ->
  Forall (fun l => l < length (functionObjs h)) ls ->
  template isl < length (programObjs h) ->
  let baseName := nameOffunctionToEvolve isl in
  exists (text : string) (h' : Heap) (prog : Program),
    generatePrompt isl (map Some ls) h = (Normal text, h') /\
    programObjs h' !! template isl = Some prog /\
    forall j l f,
      ls !! j = Some l ->
      functionObjs h !! l = Some f ->
      exists l' : loc,
        functions prog !! j = Some (Some l') /\
        length (functionObjs h) <= l' /\
        functionObjs h' !! l' =
          Some (renameFunctionCalls (renamedInput baseName j f) baseName
                  (getVersionedName baseName (Z.of_nat j))).
Proof.
  intros Hlast Hls Htpl baseName.
  destruct (generatePrompt_exact isl ls header h Hlast Hls Htpl)
    as (fs1 & prog0 & fns & Hprog & Hrun & _ & Hlen & _ & Hcopies & _).
  pose proof (last_in_range _ _ _ Hlast Hls) as Hheader.
  eexists _, _, _. split; [exact Hrun|].
  cbn [functionObjs programObjs].
  split; [apply list_lookup_insert_eq; lia|].
  intros j l f Hj Hf. pose proof (lookup_lt_Some _ _ _ Hj) as Hjn.
  exists (length (functionObjs h) + j). cbn [functions]. split_and!.
  - rewrite lookup_app_l by (rewrite length_map, length_seq; done).
    change (map Some ?l) with (Some <$> l).
    by rewrite list_lookup_fmap, lookup_seq_lt.
  - lia.
  - rewrite list_lookup_insert_ne by lia. by apply (Hcopies j l f).
Qed.

(** X13: the text and the names in it.  With a rename utility that keeps
    names, the text [generatePrompt] returns is the rendering of the
    template's context code with [n + 1] functions whose names are exactly
    [<baseName>_v0], ..., [<baseName>_v<n>], in this order and therefore
    pairwise different; rendering the template again after the call gives
    the same text. *)
Theorem generatePrompt_text_names (isl : Island) (ls : list loc)
    (header : loc) (h : Heap) :
  keeps_shape ->
  last ls = Some header ->
  Forall (fun l => l < length (functionObjs h)) ls ->
  template isl < length (programObjs h) ->
  let baseName := nameOffunctionToEvolve isl in
  exists (text : string) (h' : Heap) (prog : Program) (fns : list Function),
    generatePrompt isl (map Some ls) h = (Normal text, h') /\
    programObjs h' !! template isl = Some prog /\
    functionsOf h' (functions prog) = Some fns /\
    text = Program_render (preface prog) fns /\
    map name fns =
      map (fun i => getVersionedName baseName (Z.of_nat i))
          (seq 0 (S (length ls))) /\
    NoDup (map name fns) /\
    Program_toString (template isl) h' = (Normal text, h').
Proof.
  intros Hshape Hlast Hls Htpl baseName.
  destruct (generatePrompt_exact isl ls header h Hlast Hls Htpl)
    as (fs1 & prog0 & fns & Hprog & Hrun & Hfns & Hlen & _ & Hcopies & _).
  pose proof (last_in_range _ _ _ Hlast Hls) as Hheader.
  cbv zeta in Hrun, Hfns.
  set (hF := mkHeap _ _ _) in Hrun, Hfns.
  assert (Hnames : map name fns =
            map (fun i => getVersionedName baseName (Z.of_nat i))
                (seq 0 (S (length ls)))).
  { apply mapM_Some_1 in Hfns.
    change (map ?f ?l) with (f <$> l). apply list_eq_same_length
      with (n := S (length ls)).
    - by rewrite length_fmap, length_seq.
    - rewrite length_fmap. apply Forall2_length in Hfns. rewrite <- Hfns.
      rewrite length_app, length_map, length_seq. simpl. lia.
    - intros i x y Hi Hx Hy.
      rewrite list_lookup_fmap in Hx. rewrite list_lookup_fmap in Hy.
      rewrite lookup_seq_lt in Hy by done. simpl in Hy. injection Hy as <-.
      destruct (fns !! i) as [g|] eqn:Hg; [|done]. simpl in Hx.
      injection Hx as <-.
      destruct (Forall2_lookup_r _ _ _ _ _ Hfns Hg) as (v & Hv & Hd).
      simpl in Hd. destruct (decide (i < length ls)) as [Hlt|Hge].
      + rewrite lookup_app_l in Hv by (rewrite length_map, length_seq; done).
        change (map Some ?l) with (Some <$> l) in Hv.
        rewrite list_lookup_fmap, lookup_seq_lt in Hv by done.
        simpl in Hv. injection Hv as <-.
        destruct (lookup_lt_is_Some_2 ls i Hlt) as [l Hl].
        destruct (lookup_lt_is_Some_2 (functionObjs h) l) as [f Hf].
        { exact (proj1 (Forall_forall _ _) Hls l
                   (list_elem_of_lookup_2 _ _ _ Hl)). }
        unfold deref in Hd. subst hF. cbn [functionObjs] in Hd.
        rewrite list_lookup_insert_ne in Hd by lia.
        rewrite (Hcopies i l f Hl Hf) in Hd. simpl in Hd.
        injection Hd as <-.
        by rewrite (proj1 (Hshape _ _ _)).
      + assert (i = length ls) as -> by lia.
        rewrite lookup_app_r in Hv by (rewrite length_map, length_seq; done).
        rewrite length_map, length_seq, Nat.sub_diag in Hv. simpl in Hv.
        injection Hv as <-.
        unfold deref in Hd. subst hF. cbn [functionObjs] in Hd.
        rewrite list_lookup_insert_eq in Hd by lia. simpl in Hd.
        by injection Hd as <-. }
  eexists _, hF, _, fns. split; [exact Hrun|].
  subst hF. cbn [programObjs].
  split; [apply list_lookup_insert_eq; lia|]. cbn [functions preface].
  split_and!; [exact Hfns|done|exact Hnames| |].
  - rewrite Hnames. change (map ?f ?l) with (f <$> l).
    apply NoDup_fmap_2; [|apply NoDup_seq].
    intros i j Hij. apply getVersionedName_inj in Hij. lia.
  - unfold Program_toString. cbn [programObjs].
    rewrite list_lookup_insert_eq by lia. cbn [functions preface].
    unfold functionsOf in Hfns. by rewrite Hfns.
Qed.

(** ** More on sampling *)

Lemma drawIndices_length (n : nat) (ps : list Q) (r : Rng) :
  length (fst (drawIndices n ps r)) = n.
Proof.
  revert r. induction n as [|n IH]; intros r; simpl; [done|].
  destruct (getRandomWeightedIndex ps r) as [index r1].
  specialize (IH r1). destruct (drawIndices n ps r1) as [rest r2].
  simpl in *. by rewrite IH.
Qed.

Lemma collect_at_most (cl : JsMap) (chosen : list (option Signature)) (r : Rng) :
  length (fst (fst (collect cl chosen r))) <= length chosen.
Proof.
  revert r. induction chosen as [|sg chosen IH]; intros r; simpl; [done|].
  destruct (sg ≫= Map_get cl) as [c|].
  - destruct (sampleProgram c r) as [program r1].
    specialize (IH r1). destruct (collect cl chosen r1) as [[impls scs] r2].
    simpl in *. lia.
  - specialize (IH r). lia.
Qed.

Lemma indicesSortedByScore_length (scs : list Q) :
  length (indicesSortedByScore scs) = length scs.
Proof.
  unfold indicesSortedByScore. by rewrite Array_sort_perm, length_seq.
Qed.

(** X14: a request for no function fails.  With [functionsPerPrompt <= 0]
    [getPrompt] throws the TypeError of the empty list on every island,
    whatever clusters it has, without drawing a random number and without
    changing the heap. *)
Theorem getPrompt_nothing_requested (isl : Island) (r : Rng) (h : Heap) :
  (functionsPerPrompt isl <= 0)%Z ->
  getPrompt isl r h = (Throw undefined_name_error, h, r).
Proof.
  intros Hfpp. unfold getPrompt, drawImplementations.
  replace (Z.to_nat (sampleK isl)) with 0 by (unfold sampleK; lia).
  done.
Qed.

(** X15: the size of a prompt is bounded.  Whatever the collaborators
    return, [getPrompt] never collects more than
    [k = min(functionsPerPrompt, number of signatures)] implementations, and
    when it returns, the version number is one more than the number of
    implementations collected, at least 2 and at most [k + 1]. *)
Theorem getPrompt_version_bounds (isl : Island) (r : Rng) (h : Heap)
    (text : string) (v : Z) (h' : Heap) (r' : Rng) :
  getPrompt isl r h = (Normal (text, v), h', r') ->
  let drawn := length (fst (fst (drawImplementations isl r))) in
  v = (Z.of_nat drawn + 1)%Z /\
  (2 <= v <= sampleK isl + 1)%Z /\
  (Z.of_nat drawn <= functionsPerPrompt isl)%Z.
Proof.
  unfold getPrompt. intros Hrun.
  assert (Hle : length (fst (fst (drawImplementations isl r)))
                <= Z.to_nat (sampleK isl)).
  { unfold drawImplementations.
    pose proof (drawIndices_length (Z.to_nat (sampleK isl))
                  (probabilities isl) r) as Hn.
    destruct (drawIndices _ _ r) as [indices r1]. simpl in Hn.
    etrans; [apply collect_at_most|]. by rewrite length_map, Hn. }
  assert (Hscs : length (fst (fst (drawImplementations isl r))) =
                 length (snd (fst (drawImplementations isl r)))).
  { unfold drawImplementations. destruct (drawIndices _ _ r) as [indices r1].
    apply collect_lengths. }
  destruct (drawImplementations isl r) as [[implementations scs] r1].
  simpl in Hle, Hscs. cbv zeta. simpl.
  assert (Hsorted : length (sortImplementations implementations scs)
                    = length implementations).
  { unfold sortImplementations.
    by rewrite length_map, indicesSortedByScore_length. }
  destruct implementations as [|impl implementations].
  - destruct scs; [|done]. by vm_compute in Hrun.
  - destruct (generatePrompt isl _ h) as [[text0|e] h1]; [|done].
    injection Hrun as _ <- _ _. rewrite Hsorted.
    unfold sampleK in *. simpl length in *. lia.
Qed.






Lemma collect_members (cl : JsMap) :
  samples_member ->
  Forall (fun e => members (snd e) <> []) cl ->
  forall (chosen : list (option Signature)) (r : Rng),
    Forall2 (fun impl sc =>
               exists (k : Signature) (c : Cluster) (l : loc),
                 In (k, c) cl /\ impl = Some l /\ In l (members c) /\
                 sc = score c)
            (fst (fst (collect cl chosen r))) (snd (fst (collect cl chosen r))).
Proof.
  intros Hsample Hcl. induction chosen as [|sg chosen IH]; intros r; simpl.
  - constructor.
  - destruct sg as [k|]; simpl; [|apply IH].
    destruct (Map_get cl k) as [c|] eqn:Hc; [|apply IH].
    assert (Hin : In (k, c) cl).
    { clear -Hc. induction cl as [|[k' c'] cl IHcl]; simpl in *; [done|].
      destruct (Nat.eqb_spec k' k) as [->|_].
      - injection Hc as ->. by left.
      - right. by apply IHcl. }
    pose proof (proj1 (Forall_forall _ _) Hcl (k, c)
                  (proj2 (list_elem_of_In _ _) Hin)) as Hne. simpl in Hne.
    pose proof (Hsample c r Hne) as Hp.
    destruct (sampleProgram c r) as [program r1]. simpl in Hp.
    specialize (IH r1). destruct (collect cl chosen r1) as [[impls scs] r2].
    simpl in *. constructor; [|done]. by exists k, c, program.
Qed.

Lemma drawImplementations_members (isl : Island) (r : Rng) :
  samples_member ->
  Forall (fun e => members (snd e) <> []) (clusters isl) ->
  Forall2 (fun impl sc =>
             exists (k : Signature) (c : Cluster) (l : loc),
               In (k, c) (clusters isl) /\ impl = Some l /\
               In l (members c) /\ sc = score c)
          (fst (fst (drawImplementations isl r)))
          (snd (fst (drawImplementations isl r))).
Proof.
  intros Hsample Hcl. unfold drawImplementations.
  destruct (drawIndices _ _ r) as [indices r1].
  by apply collect_members.
Qed.

(** X17: only registered programs are sampled.  When [sampleProgram]
    returns a member and no cluster is empty, every implementation that
    [getPrompt] collects is a member of a cluster of this island, and the
    score collected with it is the score of that cluster. *)
Theorem getPrompt_samples_members (isl : Island) (r : Rng) :
  samples_member ->
  Forall (fun e => members (snd e) <> []) (clusters isl) ->
  Forall2 (fun impl sc =>
             exists (k : Signature) (c : Cluster) (l : loc),
               In (k, c) (clusters isl) /\ impl = Some l /\
               In l (members c) /\ sc = score c)
          (fst (fst (drawImplementations isl r)))
          (snd (fst (drawImplementations isl r))).
Proof.
  intros Hsample Hcl. unfold drawImplementations.
  destruct (drawIndices _ _ r) as [indices r1].
  by apply collect_members.
Qed.

Lemma sortImplementations_subset (implementations : list (option loc))
    (scs : list Q) (v : option loc) :
  In v (sortImplementations implementations scs) ->
  v = None \/ In v implementations.
Proof.
  unfold sortImplementations. intros Hin.
  apply in_map_iff in Hin as (i & <- & _).
  destruct (implementations !! i) as [x|] eqn:Hi; simpl; [|by left].
  right. apply list_elem_of_In. by eapply list_elem_of_lookup_2.
Qed.

Lemma getPrompt_returns (isl : Island) (r : Rng) (h : Heap) :
  draws_in_range -> softmax_keeps_length -> samples_member ->
  island_wf isl h ->
  (1 <= sampleK isl)%Z ->
  exists (text : string) (h' : Heap) (r' : Rng),
    getPrompt isl r h = (Normal (text, (sampleK isl + 1)%Z), h', r').
Proof.
  intros Hdraw Hsoft Hsample Hwf Hk.
  destruct (drawImplementations_valid isl r h Hdraw Hsoft Hsample Hwf Hk)
    as (ls & Hls & Hlen & Hall).
  pose proof (collect_lengths (clusters isl)) as Hscs.
  unfold getPrompt. unfold drawImplementations in *.
  destruct (drawIndices _ _ r) as [indices r0].
  specialize (Hscs (map (fun index => signatures isl !! index) indices) r0).
  destruct (collect _ _ r0) as [[implementations scs] r1].
  simpl in Hls, Hscs. subst implementations. rewrite length_map in Hscs.
  destruct (sortImplementations_valid ls scs _ Hscs Hall)
    as (ls2 & -> & Hlen2 & Hall2).
  destruct (last ls2) as [header|] eqn:Hlast;
    [|apply last_None in Hlast; subst ls2; simpl in Hlen2; lia].
  destruct (generatePrompt_post isl ls2 header h Hlast Hall2 (proj1 Hwf))
    as (text & fs' & prog0 & _ & Hrun & _).
  rewrite Hrun, length_map.
  replace (Z.of_nat (length ls2)) with (sampleK isl) by lia.
  by eexists text, _, r1.
Qed.

(** X18: a prompt costs a registered program its body.  Under the
    conditions in which [getPrompt] returns (see C5), the object it turns
    into the header is a member of a cluster of the island: after the call
    that stored program is named [<baseName>_v<k>], has the docstring
    referring to [<baseName>_v<k-1>] and an empty body. *)
Theorem getPrompt_empties_member (isl : Island) (r : Rng) (h : Heap) :
  draws_in_range -> softmax_keeps_length -> samples_member ->
  island_wf isl h ->
  (1 <= sampleK isl)%Z ->
  exists (text : string) (h' : Heap) (r' : Rng)
         (k : Signature) (c : Cluster) (l : loc),
    getPrompt isl r h = (Normal (text, (sampleK isl + 1)%Z), h', r') /\
    In (k, c) (clusters isl) /\
    In l (members c) /\
    functionObjs h' !! l =
      Some (mkFunction
              (getVersionedName (nameOffunctionToEvolve isl) (sampleK isl))
              (improvedDocString (nameOffunctionToEvolve isl)
                 (sampleK isl - 1))
              "").
Proof.
  intros Hdraw Hsoft Hsample Hwf Hk.
  destruct (drawImplementations_valid isl r h Hdraw Hsoft Hsample Hwf Hk)
    as (ls & Hls & Hlen & Hall).
  assert (Hne : Forall (fun e => members (snd e) <> []) (clusters isl)).
  { destruct Hwf as [_ Hwf]. eapply Forall_impl; [exact Hwf|]. by intros e []. }
  pose proof (drawImplementations_members isl r Hsample Hne) as Hmem.
  assert (Hscs : length (fst (fst (drawImplementations isl r))) =
                 length (snd (fst (drawImplementations isl r)))).
  { unfold drawImplementations. destruct (drawIndices _ _ r) as [indices r1].
    apply collect_lengths. }
  unfold getPrompt.
  destruct (drawImplementations isl r) as [[implementations scs] r1].
  simpl in Hls, Hscs, Hmem. subst implementations.
  rewrite length_map in Hscs.
  pose proof (sortImplementations_subset (map Some ls) scs) as Hsub.
  destruct (sortImplementations_valid ls scs _ Hscs Hall)
    as (ls2 & Heq & Hlen2 & Hall2).
  rewrite Heq in Hsub |- *.
  destruct (last ls2) as [header|] eqn:Hlast;
    [|apply last_None in Hlast; subst ls2; simpl in Hlen2; lia].
  assert (Hin : In (Some header) (map Some ls)).
  { destruct (Hsub (Some header)) as [?|?]; [|done|done].
    apply in_map. apply last_Some in Hlast as [ls' ->].
    apply in_or_app. right. by left. }
  apply list_elem_of_In, list_elem_of_lookup in Hin as [j Hj].
  destruct (Forall2_lookup_l _ _ _ _ _ Hmem Hj)
    as (sc & _ & k & c & l & Hkc & Hl & Hlc & _).
  injection Hl as <-.
  destruct Hwf as [Htpl _].
  destruct (generatePrompt_post isl ls2 header h Hlast Hall2 Htpl)
    as (text & fs' & prog0 & _ & Hrun & Hlenfs & _).
  rewrite Hrun, length_map.
  replace (Z.of_nat (length ls2)) with (sampleK isl) by lia.
  eexists text, _, r1, k, c, header. split_and!; [done|done|done|].
  cbn [functionObjs].
  rewrite list_lookup_insert_eq
    by (pose proof (last_in_range _ _ _ Hlast Hall2); lia).
  unfold headerFunction. by replace (Z.of_nat (length ls2)) with (sampleK isl) by lia.
Qed.



(** X20: the temperature follows the registrations.  On a fresh island with
    a period [P > 0], after [n] registrations the temperature is
    [T0 * (1 - (n mod P) / P)], whatever was registered; after a whole number
    of periods of registrations it is [T0] again. *)
Theorem temperature_after_registrations tpl nm fpp t0 (period : Z)
    (regs : list (loc * ScoresPerTest)) (h : Heap) :
  (0 < period)%Z ->
  let isl' := fst (registerAll (Island_fresh tpl nm fpp t0 period) regs h) in
  let n := Z.of_nat (length regs) in
  is_num (temperature isl')
         (t0 * (1 - inject_Z (n mod period) / inject_Z period))%Q /\
  ((n mod period = 0)%Z -> is_num (temperature isl') t0).
Proof.
  intros HP.
  destruct (registerAll_config regs (Island_fresh tpl nm fpp t0 period) h)
    as (_ & _ & HT & HPer & _).
  destruct (registerAll_entries regs (Island_fresh tpl nm fpp t0 period) h
              (keys_allocated_fresh _ _ _ _ _ h)) as (_ & Hn & _).
  cbv zeta. rewrite temperature_value by (rewrite HPer; simpl; lia).
  rewrite Hn, HT, HPer. simpl. rewrite Z.add_0_l.
  rewrite Z.rem_mod_nonneg by lia. split; [reflexivity|].
  intros ->. unfold Qdiv. change (inject_Z 0) with 0%Q. ring.
Qed.

(** X21: registration to prompt.  On a fresh island whose template and
    registered programs are objects of the heap, after [n >= 1]
    registrations and with [functionsPerPrompt >= 1], [getPrompt] returns
    with version number [min(functionsPerPrompt, n) + 1]: every registration
    counts as a signature of its own, also when score mappings repeat. *)
Theorem getPrompt_after_registrations tpl nm fpp t0 period
    (regs : list (loc * ScoresPerTest)) (h : Heap) (r : Rng) :
  draws_in_range -> softmax_keeps_length -> samples_member ->
  tpl < length (programObjs h) ->
  Forall (fun reg => fst reg < length (functionObjs h)) regs ->
  regs <> [] ->
  (1 <= fpp)%Z ->
  let isl' := fst (registerAll (Island_fresh tpl nm fpp t0 period) regs h) in
  let h' := snd (registerAll (Island_fresh tpl nm fpp t0 period) regs h) in
  exists (text : string) (h2 : Heap) (r' : Rng),
    getPrompt isl' r h' =
      (Normal (text, (Z.min fpp (Z.of_nat (length regs)) + 1)%Z), h2, r').
Proof.
  intros Hdraw Hsoft Hsample Htpl Hregs Hne Hfpp.
  pose proof (keys_allocated_fresh tpl nm fpp t0 period h) as Hk.
  destruct (registerAll_entries regs _ h Hk) as (Hc & _ & _).
  destruct (registerAll_config regs (Island_fresh tpl nm fpp t0 period) h)
    as (Ht & Hf & _ & _ & Hfo & Hpo).
  cbv zeta. simpl in Hc, Ht, Hf.
  set (isl' := fst (registerAll _ regs h)) in *.
  set (h' := snd (registerAll _ regs h)) in *.
  assert (HK : sampleK isl' = Z.min fpp (Z.of_nat (length regs))).
  { unfold sampleK, signatures, Map_keys.
    rewrite Hc, Hf, length_map, length_imap. lia. }
  assert (Hwf : island_wf isl' h').
  { split; [by rewrite Ht, Hpo|]. rewrite Hc, Hfo.
    apply Forall_forall. intros e He.
    apply list_elem_of_lookup in He as [i Hi].
    apply list_lookup_imap_Some in Hi as (reg & Hreg & ->). simpl.
    split; [done|]. constructor; [|constructor].
    exact (proj1 (Forall_forall _ _) Hregs reg
             (list_elem_of_lookup_2 _ _ _ Hreg)). }
  assert (H1 : (1 <= sampleK isl')%Z).
  { rewrite HK. destruct regs; [done|]. simpl length. lia. }
  destruct (getPrompt_returns isl' r h' Hdraw Hsoft Hsample Hwf H1)
    as (text & h2 & r' & Hrun).
  exists text, h2, r'. by rewrite <- HK.
Qed.

End WithMath.

(** * Examples on concrete inputs *)

Example getVersionedName_example : getVersionedName "priority" 12%Z = "priority_v12".
Proof. reflexivity. Qed.

Example temperature_example :
  is_num (temperature demo_island) (4 # 5).
Proof. reflexivity. Qed.

Example indicesSortedByScore_example :
  indicesSortedByScore [3; 1; 3; 1]%Q = [1; 3; 0; 2].
Proof. reflexivity. Qed.

Example register_same_scores_twice_example :
  let scoresPerTest := [("t1", 1%Q); ("t2", 3%Q)] in
  let '(isl1, h1) :=
    registerProgram mean_score (Island_fresh 0 "priority" 2 1%Q 10%Z) 0
      scoresPerTest (mkHeap (functionObjs demo_heap) (programObjs demo_heap) []) in
  let '(isl2, h2) := registerProgram mean_score isl1 1 scoresPerTest h1 in
  map (fun e => (fst e, members (snd e))) (clusters isl2)
    = [(0, [0]); (1, [1])] /\
  Forall (fun e => (score (snd e) == 2)%Q) (clusters isl2) /\
  arrayObjs h2 = [[1; 3]; [1; 3]]%Q /\
  numPrograms isl2 = 2%Z.
Proof. vm_compute. repeat split; repeat constructor. Qed.

Example demo_getPrompt_names :
  fst (fst (getPrompt plain_softmax same_function names_only unit first_index
              first_member demo_island tt demo_heap))
  = Normal ("priority_v0;priority_v1;priority_v2;", 3%Z).
Proof. vm_compute. reflexivity. Qed.

(** Rounding can merge neighbouring values of the schedule: in arithmetic
    rounded down to eighths the demo island has the same temperature at
    counts 0 and 1. *)
Example temperature_rounded_example :
  is_num (temperature_rounded truncate_to_eighths
            (with_numPrograms demo_island 0)) 1 /\
  is_num (temperature_rounded truncate_to_eighths
            (with_numPrograms demo_island 1)) 1.
Proof. split; reflexivity. Qed.

(** * Instances of the theorems and inputs on which claims fail *)

Lemma truncate_to_eighths_rounding : rounding truncate_to_eighths.
Proof.
  unfold rounding, truncate_to_eighths. split_and!; [|reflexivity..].
  intros x y Hxy. unfold Qdiv. apply Qmult_le_compat_r; [|done].
  rewrite <- Zle_Qle. apply Qfloor_resp_le.
  by apply Qmult_le_compat_r.
Qed.

(** C4 at the demo island ([T0 = 1], [P = 10]) with the coarse rounding:
    the temperature is 1 at counts 0 and 10, and at count 3 it is not above
    the temperature at count 2. *)
Lemma temperature_sawtooth_witness :
  rounding truncate_to_eighths /\
  (truncate_to_eighths (clusterSamplingTemperatureInit demo_island)
   == clusterSamplingTemperatureInit demo_island)%Q /\
  (0 < clusterSamplingTemperaturePeriod demo_island)%Z /\
  is_num (temperature_rounded truncate_to_eighths
            (with_numPrograms demo_island 0)) 1 /\
  is_num (temperature_rounded truncate_to_eighths
            (with_numPrograms demo_island 10)) 1 /\
  number_le (temperature_rounded truncate_to_eighths
               (with_numPrograms demo_island 3))
            (temperature_rounded truncate_to_eighths
               (with_numPrograms demo_island 2)).
Proof.
  assert (H0 : rounding truncate_to_eighths)
    by exact truncate_to_eighths_rounding.
  assert (H1 : (truncate_to_eighths (clusterSamplingTemperatureInit demo_island)
                == clusterSamplingTemperatureInit demo_island)%Q) by reflexivity.
  assert (HP : (0 < clusterSamplingTemperaturePeriod demo_island)%Z)
    by reflexivity.
  destruct (temperature_sawtooth truncate_to_eighths demo_island H0 H1 HP)
    as (_ & Hzero & Hwrap & Hdec).
  repeat (split; [assumption|]).
  apply Hdec; [discriminate|lia|reflexivity].
Defined.

(** C4 as stated fails: with [T0 = 0] the temperature is 0 for every count: it does not
    decrease between [numPrograms = 0] and [numPrograms = 1] (period 2). *)
Lemma temperature_flat_when_T0_zero :
  (0 < clusterSamplingTemperaturePeriod cold_island)%Z /\
  is_num (temperature (with_numPrograms cold_island 0)) 0 /\
  is_num (temperature (with_numPrograms cold_island 1)) 0 /\
  ~ number_lt (temperature (with_numPrograms cold_island 1))
              (temperature (with_numPrograms cold_island 0)).
Proof.
  split; [reflexivity|]. split; [reflexivity|]. split; [reflexivity|].
  vm_compute. intros H. discriminate H.
Qed.

(** C8 as stated fails: with period 0 the constructor returns the island
    and the first read of [temperature] returns NaN: neither raises an
    error. *)
Lemma zero_period_raises_nothing :
  Island_constructor 0 "priority" 2 1%Q 0%Z [] 0%Z =
    Normal (mkIsland 0 "priority" 2 1%Q 0%Z [] 0%Z) /\
  read_temperature (mkIsland 0 "priority" 2 1%Q 0%Z [] 0%Z) = Normal None /\
  ~ ((exists e, Island_constructor 0 "priority" 2 1%Q 0%Z [] 0%Z = Throw e) \/
     (exists e, read_temperature (mkIsland 0 "priority" 2 1%Q 0%Z [] 0%Z)
                = Throw e)).
Proof.
  split; [reflexivity|]. split; [reflexivity|].
  intros [[e He]|[e He]]; discriminate He.
Qed.

(** C3 as stated fails: [generatePrompt([])] ends with the runtime's
    TypeError, not with an error raised by the program. *)
Lemma generatePrompt_empty_no_explicit_error :
  fst (generatePrompt same_function names_only demo_island [] demo_heap)
    = Throw (TypeError "Cannot set properties of undefined (setting 'name')") /\
  ~ exists message : string,
      fst (generatePrompt same_function names_only demo_island [] demo_heap)
        = Throw (Error message).
Proof.
  split; [reflexivity|]. intros [message H]. discriminate H.
Qed.

(** C5 as stated fails: on an island without clusters [k = 0], and
    [getPrompt] throws instead of returning version number [k + 1 = 1]. *)
Lemma getPrompt_without_clusters_returns_nothing :
  sampleK new_island = 0%Z /\
  fst (fst (getPrompt plain_softmax same_function names_only unit first_index
              first_member new_island tt demo_heap))
    = Throw (TypeError "Cannot set properties of undefined (setting 'name')") /\
  ~ exists (text : string) (h' : Heap) (r' : unit),
      getPrompt plain_softmax same_function names_only unit first_index
        first_member new_island tt demo_heap
      = (Normal (text, (sampleK new_island + 1)%Z), h', r').
Proof.
  split; [reflexivity|]. split; [reflexivity|].
  intros (text & h' & r' & H). vm_compute in H. discriminate H.
Qed.


(** C5 at the demo island: two clusters, [functionsPerPrompt = 2], so
    [k = 2] and the version number is 3. *)
Lemma getPrompt_version_number_witness :
  draws_in_range unit first_index /\
  softmax_keeps_length plain_softmax /\
  samples_member unit first_member /\
  island_wf demo_island demo_heap /\
  (1 <= sampleK demo_island)%Z /\
  exists (text : string) (h' : Heap) (r' : unit),
    getPrompt plain_softmax same_function names_only unit first_index
      first_member demo_island tt demo_heap
    = (Normal (text, 3%Z), h', r').
Proof.
  assert (H1 : draws_in_range unit first_index).
  { intros [|p ps] r Hps; [congruence|simpl; lia]. }
  assert (H2 : softmax_keeps_length plain_softmax) by (intros scs t; reflexivity).
  assert (H3 : samples_member unit first_member).
  { intros [sc [|l ms]] r Hne; simpl in *; [congruence|by left]. }
  assert (H4 : island_wf demo_island demo_heap).
  { split; [simpl; lia|]. repeat constructor; simpl; (congruence || lia). }
  assert (H5 : (1 <= sampleK demo_island)%Z) by (vm_compute; congruence).
  repeat (split; [assumption|]).
  exact (proj2 (proj2 (getPrompt_version_number plain_softmax same_function
                         names_only unit first_index first_member
                         demo_island tt demo_heap H1 H2 H3 H4 H5))).
Defined.

(** C7 on the two function objects of the demo heap: the three functions
    of the prompt are named [priority_v0], [priority_v1] and [priority_v2],
    the second and the header carry the docstring of the version before, and
    the header has no body. *)
Lemma generatePrompt_versioned_names_witness :
  keeps_shape same_function /\
  [0; 1] <> [] /\
  Forall (fun l => l < length (functionObjs demo_heap)) [0; 1] /\
  template demo_island < length (programObjs demo_heap) /\
  exists (text : string) (h' : Heap) (prog : Program),
    generatePrompt same_function names_only demo_island (map Some [0; 1])
      demo_heap = (Normal text, h') /\
    programObjs h' !! template demo_island = Some prog /\
    length (functions prog) = 3 /\
    (exists (l : nat) (f : Function),
       functions prog !! 0 = Some (Some l) /\ functionObjs h' !! l = Some f /\
       name f = "priority_v0") /\
    (exists (l : nat) (f : Function),
       functions prog !! 1 = Some (Some l) /\ functionObjs h' !! l = Some f /\
       name f = "priority_v1" /\
       docString f = "Improved version of priority_v0.") /\
    (exists (l : nat) (f : Function),
       functions prog !! 2 = Some (Some l) /\ functionObjs h' !! l = Some f /\
       name f = "priority_v2" /\ body f = "" /\
       docString f = "Improved version of priority_v1.").
Proof.
  assert (H1 : keeps_shape same_function) by (intros f old new; split; reflexivity).
  assert (H2 : [0; 1] <> ([] : list nat)) by congruence.
  assert (H3 : Forall (fun l => l < length (functionObjs demo_heap)) [0; 1]).
  { repeat constructor; simpl; lia. }
  assert (H4 : template demo_island < length (programObjs demo_heap)).
  { simpl; lia. }
  repeat (split; [assumption|]).
  destruct (generatePrompt_versioned_names same_function names_only
              demo_island [0; 1] demo_heap H1 H2 H3 H4)
    as (text & h' & prog & Hrun & Hprog & Hlen & Hfirst & Hheader).
  exists text, h', prog. repeat (split; [assumption|]).
  destruct (Hfirst 0 ltac:(simpl; lia)) as (l0 & f0 & Hl0 & Hf0 & Hn0 & _).
  destruct (Hfirst 1 ltac:(simpl; lia)) as (l1 & f1 & Hl1 & Hf1 & Hn1 & Hd1).
  destruct Hheader as (l2 & f2 & Hl2 & Hf2 & Hn2 & Hb2 & Hd2).
  split; [by exists l0, f0|]. split.
  - exists l1, f1. repeat (split; [assumption|]). apply Hd1. lia.
  - by exists l2, f2.
Defined.

(** C10 on the two function objects of the demo heap: object 1, the last
    input, ends as the header. *)
Lemma generatePrompt_mutates_shared_objects_witness :
  last [0; 1] = Some 1 /\
  Forall (fun l => l < length (functionObjs demo_heap)) [0; 1] /\
  template demo_island < length (programObjs demo_heap) /\
  exists (text : string) (h' : Heap) (versionedFunctions : list (option nat)),
    generatePrompt same_function names_only demo_island (map Some [0; 1])
      demo_heap = (Normal text, h') /\
    programObjs h' !! 0 = Some (mkProgram "import math" versionedFunctions) /\
    last versionedFunctions = Some (Some 1) /\
    functionObjs h' !! 1 =
      Some (mkFunction "priority_v2" "Improved version of priority_v1." "").
Proof.
  assert (H1 : last [0; 1] = Some 1) by reflexivity.
  assert (H2 : Forall (fun l => l < length (functionObjs demo_heap)) [0; 1]).
  { repeat constructor; simpl; lia. }
  assert (H3 : template demo_island < length (programObjs demo_heap)).
  { simpl; lia. }
  repeat (split; [assumption|]).
  destruct (generatePrompt_mutates_shared_objects same_function names_only
              demo_island [0; 1] 1 demo_heap H1 H2 H3)
    as (text & h' & prog0 & vfs & Hrun & Hp0 & Hp & _ & Hlast & Hobj).
  exists text, h', vfs. split; [exact Hrun|].
  injection Hp0 as <-. repeat split; assumption.
Defined.

(** * Instances of the further properties *)

Ltac demo_side :=
  match goal with
  | |- draws_in_range _ _ => intros [|p ps] r Hps; [congruence|simpl; lia]
  | |- softmax_keeps_length _ => intros scs t; reflexivity
  | |- samples_member _ _ =>
      intros [sc [|l ms]] r Hne; simpl in *; [congruence|by left]
  | |- keeps_shape _ => intros f old new; split; reflexivity
  | |- island_wf _ _ =>
      split; [simpl; lia|repeat constructor; simpl; (congruence || lia)]
  | |- Forall _ _ => repeat constructor; simpl; (congruence || lia)
  | |- keys_allocated _ _ => repeat constructor; simpl; lia
  | |- _ < _ => simpl; lia
  | |- (_ < _)%Z => reflexivity
  | |- (_ <= _)%Z => vm_compute; congruence
  | |- (_ < _)%Q => reflexivity
  | |- _ => reflexivity
  end.

(** X2 at the demo island: counts 3 and 23 give the same temperature. *)
Lemma temperature_periodic_witness :
  (0 < clusterSamplingTemperaturePeriod demo_island)%Z /\
  (0 <= 3)%Z /\ (0 <= 2)%Z /\
  temperature (with_numPrograms demo_island 23) =
  temperature (with_numPrograms demo_island 3).
Proof.
  assert (H1 : (0 < clusterSamplingTemperaturePeriod demo_island)%Z) by demo_side.
  assert (H2 : (0 <= 3)%Z) by lia.
  assert (H3 : (0 <= 2)%Z) by lia.
  repeat (split; [assumption|]).
  exact (temperature_periodic demo_island 3 2 H1 H2 H3).
Defined.

(** X3 at the demo island with count 3, in arithmetic rounded down to
    eighths. *)
Lemma temperature_bounds_witness :
  rounding truncate_to_eighths /\
  (truncate_to_eighths (clusterSamplingTemperatureInit demo_island)
   == clusterSamplingTemperatureInit demo_island)%Q /\
  (0 < clusterSamplingTemperaturePeriod demo_island)%Z /\
  (0 <= clusterSamplingTemperatureInit demo_island)%Q /\
  (0 <= 3)%Z /\
  exists t : Q,
    temperature_rounded truncate_to_eighths (with_numPrograms demo_island 3)
      = Some t /\
    (0 <= t)%Q /\ (t <= 1)%Q.
Proof.
  assert (H0 : rounding truncate_to_eighths)
    by exact truncate_to_eighths_rounding.
  assert (H1 : (truncate_to_eighths (clusterSamplingTemperatureInit demo_island)
                == clusterSamplingTemperatureInit demo_island)%Q) by reflexivity.
  assert (H2 : (0 < clusterSamplingTemperaturePeriod demo_island)%Z)
    by reflexivity.
  assert (H3 : (0 <= clusterSamplingTemperatureInit demo_island)%Q)
    by (vm_compute; congruence).
  assert (H4 : (0 <= 3)%Z) by lia.
  repeat (split; [assumption|]).
  exact (temperature_bounds truncate_to_eighths demo_island 3 H0 H1 H2 H3 H4).
Defined.

(** X4 at the demo island with period -10. *)
Lemma temperature_negative_period_witness :
  (clusterSamplingTemperaturePeriod reversed_island < 0)%Z /\
  (0 < clusterSamplingTemperatureInit reversed_island)%Q /\
  (0 <= 3)%Z /\
  exists t : Q,
    temperature (with_numPrograms reversed_island 3) = Some t /\ (1 <= t)%Q.
Proof.
  assert (H1 : (clusterSamplingTemperaturePeriod reversed_island < 0)%Z)
    by demo_side.
  assert (H2 : (0 < clusterSamplingTemperatureInit reversed_island)%Q)
    by demo_side.
  assert (H3 : (0 <= 3)%Z) by lia.
  repeat (split; [assumption|]).
  exact (temperature_negative_period reversed_island 3 H1 H2 H3).
Defined.

(** X5 at the demo island with count -3, in arithmetic rounded down to
    eighths. *)
Lemma temperature_negative_count_witness :
  rounding truncate_to_eighths /\
  (truncate_to_eighths (clusterSamplingTemperatureInit demo_island)
   == clusterSamplingTemperatureInit demo_island)%Q /\
  (0 < clusterSamplingTemperaturePeriod demo_island)%Z /\
  (0 <= clusterSamplingTemperatureInit demo_island)%Q /\
  (-3 < 0)%Z /\
  number_le (Some 1%Q)
    (temperature_rounded truncate_to_eighths (with_numPrograms demo_island (-3))).
Proof.
  assert (H0 : rounding truncate_to_eighths)
    by exact truncate_to_eighths_rounding.
  assert (H1 : (truncate_to_eighths (clusterSamplingTemperatureInit demo_island)
                == clusterSamplingTemperatureInit demo_island)%Q) by reflexivity.
  assert (H2 : (0 < clusterSamplingTemperaturePeriod demo_island)%Z)
    by reflexivity.
  assert (H3 : (0 <= clusterSamplingTemperatureInit demo_island)%Q)
    by (vm_compute; congruence).
  assert (H4 : (-3 < 0)%Z) by lia.
  repeat (split; [assumption|]).
  exact (temperature_negative_count truncate_to_eighths demo_island (-3)
           H0 H1 H2 H3 H4).
Defined.

(** X7 at the demo island: registering the scores of its first cluster
    again leaves that cluster as it is. *)
Lemma registerAll_keeps_clusters_witness :
  keys_allocated (clusters demo_island) demo_heap /\
  clusters (fst (registerAll mean_score demo_island demo_registrations
                   demo_heap)) !! 0
    = Some (0, mkCluster (1 # 5)%Q [0]) /\
  length (clusters (fst (registerAll mean_score demo_island demo_registrations
                           demo_heap))) = 4.
Proof.
  assert (H1 : keys_allocated (clusters demo_island) demo_heap) by demo_side.
  split; [assumption|].
  destruct (registerAll_keeps_clusters mean_score demo_registrations
              demo_island demo_heap H1) as (Hold & Hlen & _).
  split; [apply Hold; reflexivity|exact Hlen].
Defined.

(** X8 at the demo island, when the score 0.9 of its second cluster reads
    as NaN: the scores are 0.2 and 0. *)
Lemma scores_are_cluster_scores_witness :
  NoDup (signatures demo_island) /\
  scores_read nan_above_half demo_island = [(1 # 5)%Q; 0%Q] /\
  length (scores_read nan_above_half demo_island)
    = length (signatures demo_island) /\
  Forall2 (fun x e => match nan_above_half (snd e) with
                      | Some q => (x == q)%Q
                      | None => x = 0%Q
                      end)
          (scores_read nan_above_half demo_island) (clusters demo_island).
Proof.
  assert (H1 : NoDup (signatures demo_island)).
  { apply NoDup_ListNoDup. repeat constructor; simpl; intuition congruence. }
  split; [assumption|]. split; [reflexivity|].
  exact (proj2 (scores_are_cluster_scores nan_above_half demo_island H1)).
Defined.

(** X6 at the demo island: two registrations take the counter from 2
    to 4. *)
Lemma registerAll_frame_witness :
  (- 2 ^ 53 <= numPrograms demo_island)%Z /\
  (numPrograms demo_island + Z.of_nat (length demo_registrations) <= 2 ^ 53)%Z /\
  numPrograms (fst (registerAll mean_score demo_island demo_registrations
                      demo_heap)) = 4%Z /\
  arrayObjs (snd (registerAll mean_score demo_island demo_registrations
                    demo_heap))
    = arrayObjs demo_heap ++ [[(1 # 5)%Q]; [(1 # 5)%Q]].
Proof.
  assert (H1 : (- 2 ^ 53 <= numPrograms demo_island)%Z)
    by (vm_compute; congruence).
  assert (H2 : (numPrograms demo_island
                + Z.of_nat (length demo_registrations) <= 2 ^ 53)%Z)
    by (vm_compute; congruence).
  repeat (split; [assumption|]).
  destruct (registerAll_frame mean_score demo_registrations demo_island
              demo_heap H1 H2) as (Hn & _ & _ & _ & _ & _ & _ & _ & Ha).
  split; [exact Hn|exact Ha].
Defined.

(** X10 on the two function objects of the demo heap. *)
Lemma generatePrompt_frame_witness :
  last [0; 1] = Some 1 /\
  Forall (fun l => l < length (functionObjs demo_heap)) [0; 1] /\
  template demo_island < length (programObjs demo_heap) /\
  exists (text : string) (h' : Heap),
    generatePrompt same_function names_only demo_island (map Some [0; 1])
      demo_heap = (Normal text, h') /\
    length (functionObjs h') = 4 /\
    arrayObjs h' = arrayObjs demo_heap.
Proof.
  assert (H1 : last [0; 1] = Some 1) by reflexivity.
  assert (H2 : Forall (fun l => l < length (functionObjs demo_heap)) [0; 1])
    by demo_side.
  assert (H3 : template demo_island < length (programObjs demo_heap))
    by demo_side.
  repeat (split; [assumption|]).
  destruct (generatePrompt_frame same_function names_only demo_island [0; 1] 1
              demo_heap H1 H2 H3) as (text & h' & Hrun & Hlen & _ & Harr & _).
  exists text, h'. repeat split; assumption.
Defined.

(** X11 on the demo heap: object 0, the first input, ends as version 0 with
    its own docstring and body. *)
Lemma generatePrompt_renames_inputs_witness :
  last [0; 1] = Some 1 /\
  Forall (fun l => l < length (functionObjs demo_heap)) [0; 1] /\
  template demo_island < length (programObjs demo_heap) /\
  exists (text : string) (h' : Heap),
    generatePrompt same_function names_only demo_island (map Some [0; 1])
      demo_heap = (Normal text, h') /\
    functionObjs h' !! 0 =
      Some (mkFunction "priority_v0" "Scores an item." "return 0").
Proof.
  assert (H1 : last [0; 1] = Some 1) by reflexivity.
  assert (H2 : Forall (fun l => l < length (functionObjs demo_heap)) [0; 1])
    by demo_side.
  assert (H3 : template demo_island < length (programObjs demo_heap))
    by demo_side.
  repeat (split; [assumption|]).
  destruct (generatePrompt_renames_inputs same_function names_only demo_island
              [0; 1] 1 demo_heap H1 H2 H3) as (text & h' & Hrun & Hin).
  exists text, h'. split; [exact Hrun|].
  apply (Hin 0 0 (mkFunction "priority" "Scores an item." "return 0"));
    [reflexivity| |simpl; lia|reflexivity].
  intros [|[|j']] Hj H; [lia|vm_compute in H; discriminate H..].
Defined.

(** X12 on the demo heap: the function at index 1 is a new object made from
    object 1 as it was before the call. *)
Lemma generatePrompt_copies_inputs_witness :
  last [0; 1] = Some 1 /\
  Forall (fun l => l < length (functionObjs demo_heap)) [0; 1] /\
  template demo_island < length (programObjs demo_heap) /\
  exists (text : string) (h' : Heap) (prog : Program) (l' : nat),
    generatePrompt same_function names_only demo_island (map Some [0; 1])
      demo_heap = (Normal text, h') /\
    programObjs h' !! template demo_island = Some prog /\
    functions prog !! 1 = Some (Some l') /\
    functionObjs h' !! l' =
      Some (mkFunction "priority_v1" "Improved version of priority_v0."
                       "return 1").
Proof.
  assert (H1 : last [0; 1] = Some 1) by reflexivity.
  assert (H2 : Forall (fun l => l < length (functionObjs demo_heap)) [0; 1])
    by demo_side.
  assert (H3 : template demo_island < length (programObjs demo_heap))
    by demo_side.
  repeat (split; [assumption|]).
  destruct (generatePrompt_copies_inputs same_function names_only demo_island
              [0; 1] 1 demo_heap H1 H2 H3) as (text & h' & prog & Hrun & Hp & Hc).
  destruct (Hc 1 1 (mkFunction "priority" "Scores an item." "return 1")
              eq_refl eq_refl) as (l' & Hl' & _ & Hobj).
  exists text, h', prog, l'. repeat split; assumption.
Defined.

(** X13 on the demo heap. *)
Lemma generatePrompt_text_names_witness :
  keeps_shape same_function /\
  last [0; 1] = Some 1 /\
  Forall (fun l => l < length (functionObjs demo_heap)) [0; 1] /\
  template demo_island < length (programObjs demo_heap) /\
  exists (text : string) (h' : Heap) (fns : list Function),
    generatePrompt same_function names_only demo_island (map Some [0; 1])
      demo_heap = (Normal text, h') /\
    map name fns = ["priority_v0"; "priority_v1"; "priority_v2"] /\
    Program_toString names_only (template demo_island) h' = (Normal text, h').
Proof.
  assert (H0 : keeps_shape same_function) by demo_side.
  assert (H1 : last [0; 1] = Some 1) by reflexivity.
  assert (H2 : Forall (fun l => l < length (functionObjs demo_heap)) [0; 1])
    by demo_side.
  assert (H3 : template demo_island < length (programObjs demo_heap))
    by demo_side.
  repeat (split; [assumption|]).
  destruct (generatePrompt_text_names same_function names_only demo_island
              [0; 1] 1 demo_heap H0 H1 H2 H3)
    as (text & h' & prog & fns & Hrun & _ & _ & _ & Hnames & _ & Hagain).
  exists text, h', fns. repeat split; assumption.
Defined.

(** X14 at the demo island with [functionsPerPrompt = 0]. *)
Lemma getPrompt_nothing_requested_witness :
  (functionsPerPrompt idle_island <= 0)%Z /\
  getPrompt plain_softmax same_function names_only unit first_index
    first_member idle_island tt demo_heap
  = (Throw undefined_name_error, demo_heap, tt).
Proof.
  assert (H1 : (functionsPerPrompt idle_island <= 0)%Z) by demo_side.
  split; [assumption|].
  exact (getPrompt_nothing_requested plain_softmax same_function names_only
           unit first_index first_member idle_island tt demo_heap H1).
Defined.

(** X15 at the demo island: the prompt that is returned has version 3. *)
Lemma getPrompt_version_bounds_witness :
  exists (text : string) (v : Z) (h' : Heap) (r' : unit),
    getPrompt plain_softmax same_function names_only unit first_index
      first_member demo_island tt demo_heap = (Normal (text, v), h', r') /\
    (2 <= v <= sampleK demo_island + 1)%Z.
Proof.
  destruct (getPrompt plain_softmax same_function names_only unit first_index
              first_member demo_island tt demo_heap)
    as [[[[text v]|e] h'] r'] eqn:Hrun.
  - exists text, v, h', r'. split; [reflexivity|].
    exact (proj1 (proj2 (getPrompt_version_bounds plain_softmax same_function
                           names_only unit first_index first_member
                           demo_island tt demo_heap text v h' r' Hrun))).
  - vm_compute in Hrun. discriminate Hrun.
Defined.


(** X17 at the demo island. *)
Lemma getPrompt_samples_members_witness :
  samples_member unit first_member /\
  Forall (fun e => members (snd e) <> []) (clusters demo_island) /\
  Forall2 (fun impl sc =>
             exists (k : nat) (c : Cluster) (l : nat),
               In (k, c) (clusters demo_island) /\ impl = Some l /\
               In l (members c) /\ sc = score c)
          (fst (fst (drawImplementations plain_softmax unit first_index
                       first_member demo_island tt)))
          (snd (fst (drawImplementations plain_softmax unit first_index
                       first_member demo_island tt))).
Proof.
  assert (H1 : samples_member unit first_member) by demo_side.
  assert (H2 : Forall (fun e => members (snd e) <> []) (clusters demo_island))
    by demo_side.
  repeat (split; [assumption|]).
  exact (getPrompt_samples_members plain_softmax unit first_index first_member
           demo_island tt H1 H2).
Defined.

(** X18 at the demo island: a member of a cluster ends with an empty body. *)
Lemma getPrompt_empties_member_witness :
  draws_in_range unit first_index /\
  softmax_keeps_length plain_softmax /\
  samples_member unit first_member /\
  island_wf demo_island demo_heap /\
  (1 <= sampleK demo_island)%Z /\
  exists (text : string) (h' : Heap) (r' : unit)
         (k : nat) (c : Cluster) (l : nat),
    getPrompt plain_softmax same_function names_only unit first_index
      first_member demo_island tt demo_heap = (Normal (text, 3%Z), h', r') /\
    In (k, c) (clusters demo_island) /\
    In l (members c) /\
    functionObjs h' !! l =
      Some (mkFunction "priority_v2" "Improved version of priority_v1." "").
Proof.
  assert (H1 : draws_in_range unit first_index) by demo_side.
  assert (H2 : softmax_keeps_length plain_softmax) by demo_side.
  assert (H3 : samples_member unit first_member) by demo_side.
  assert (H4 : island_wf demo_island demo_heap) by demo_side.
  assert (H5 : (1 <= sampleK demo_island)%Z) by demo_side.
  repeat (split; [assumption|]).
  exact (getPrompt_empties_member plain_softmax same_function names_only unit
           first_index first_member demo_island tt demo_heap H1 H2 H3 H4 H5).
Defined.

(** X20 on a fresh island with period 10 after two registrations. *)
Lemma temperature_after_registrations_witness :
  (0 < 10)%Z /\
  is_num (temperature
            (fst (registerAll mean_score (Island_fresh 0 "priority" 2 1%Q 10%Z)
                    demo_registrations demo_heap)))
         (1 * (1 - inject_Z 2 / inject_Z 10))%Q.
Proof.
  assert (H1 : (0 < 10)%Z) by demo_side.
  split; [assumption|].
  exact (proj1 (temperature_after_registrations mean_score 0 "priority" 2 1%Q
                  10%Z demo_registrations demo_heap H1)).
Defined.

(** X21 on a fresh island after two registrations with the same score
    mapping: the version number is 3. *)
Lemma getPrompt_after_registrations_witness :
  draws_in_range unit first_index /\
  softmax_keeps_length plain_softmax /\
  samples_member unit first_member /\
  0 < length (programObjs demo_heap) /\
  Forall (fun reg => fst reg < length (functionObjs demo_heap))
         demo_registrations /\
  demo_registrations <> [] /\
  (1 <= 2)%Z /\
  exists (text : string) (h2 : Heap) (r' : unit),
    getPrompt plain_softmax same_function names_only unit first_index
      first_member
      (fst (registerAll mean_score (Island_fresh 0 "priority" 2 1%Q 10%Z)
              demo_registrations demo_heap))
      tt
      (snd (registerAll mean_score (Island_fresh 0 "priority" 2 1%Q 10%Z)
              demo_registrations demo_heap))
    = (Normal (text, 3%Z), h2, r').
Proof.
  assert (H1 : draws_in_range unit first_index) by demo_side.
  assert (H2 : softmax_keeps_length plain_softmax) by demo_side.
  assert (H3 : samples_member unit first_member) by demo_side.
  assert (H4 : 0 < length (programObjs demo_heap)) by demo_side.
  assert (H5 : Forall (fun reg => fst reg < length (functionObjs demo_heap))
                 demo_registrations) by demo_side.
  assert (H6 : demo_registrations <> []) by (unfold demo_registrations; congruence).
  assert (H7 : (1 <= 2)%Z) by lia.
  repeat (split; [assumption|]).
  exact (getPrompt_after_registrations mean_score plain_softmax same_function
           names_only unit first_index first_member 0 "priority" 2%Z 1%Q 10%Z
           demo_registrations demo_heap tt H1 H2 H3 H4 H5 H6 H7).
Defined.
